(** * Meower Uploads: the file ingestion and lifecycle engine

    A shallow embedding of [file.go] and [utils.go]: the [File] record, the
    "files" and "blocked_files" collections, the region-keyed object store,
    and the operations [IngestMultipartFile], [GenerateThumbnail],
    [GetObject], [GetFile], [Delete], [cleanupFiles] and [isFileReferenced].
    [file.go] comes in two revisions; the embedding follows the one in
    which [GenerateThumbnail] is a method of [File] and [GetObject] tests
    the bucket.

    External collaborators (MongoDB driver failures, the MinIO client, the
    [file], [sha256sum], [magick] and [ffmpeg] subprocesses, the clock and
    the random source) are not computed: every operation receives a record
    holding the outcome each external call had during that operation.  Tool
    output is handed over already split and parsed, so a run in which
    [strings.Fields] or [strings.Split] yields too few fields (where the Go
    code panics) is outside the model. *)

From Stdlib Require Import ZArith String Ascii List Bool Lia.
From Stdlib Require Strings.Byte.
From stdpp Require Import base strings list gmap.

Local Open Scope string_scope.
Local Open Scope Z_scope.

(** ** Integers and strings as Go has them *)

(** [int] and [int64] are 64-bit two's complement. *)
Definition wrap64 (z : Z) : Z := (z + 2^63) mod 2^64 - 2^63.

Definition in_int64 (z : Z) : Prop := - 2^63 <= z < 2^63.

(** [strings.HasPrefix(s, prefix)] *)
Definition HasPrefix (s pre : string) : bool := String.prefix pre s.

Definition FlagUltraHDUploads : Z := 16.

Record User := mkUser {
  Username : string;
  Flags : Z
}.

(** ** Errors *)

Inductive error :=
| ErrUnsupportedFile
| ErrFileBlocked
| ErrNoDocuments
| ErrDuplicateKey
| ErrIO (what : string).

#[global] Instance error_eq_dec : EqDecision error.
Proof. solve_decision. Defined.

(** ** The File record *)

Record File := mkFile {
  Id : string;
  Hash : string;
  Bucket : string;
  Mime : string;
  ThumbnailMime : string;
  Size : Z;
  Filename : string;
  Width : Z;
  Height : Z;
  UploadRegion : string;
  UploadedBy : string;
  UploadedAt : Z;
  Claimed : bool
}.

(** [var f File]: every field at its zero value. *)
Definition zeroFile : File :=
  mkFile "" "" "" "" "" 0 "" 0 0 "" "" 0 false.

Definition set_ThumbnailMime (m : string) (f : File) : File :=
  mkFile (Id f) (Hash f) (Bucket f) (Mime f) m (Size f) (Filename f)
         (Width f) (Height f) (UploadRegion f) (UploadedBy f) (UploadedAt f)
         (Claimed f).

Definition set_Size (n : Z) (f : File) : File :=
  mkFile (Id f) (Hash f) (Bucket f) (Mime f) (ThumbnailMime f) n (Filename f)
         (Width f) (Height f) (UploadRegion f) (UploadedBy f) (UploadedAt f)
         (Claimed f).

Definition set_Mime (m : string) (f : File) : File :=
  mkFile (Id f) (Hash f) (Bucket f) m (ThumbnailMime f) (Size f) (Filename f)
         (Width f) (Height f) (UploadRegion f) (UploadedBy f) (UploadedAt f)
         (Claimed f).

Definition set_dims (wh : Z * Z) (f : File) : File :=
  mkFile (Id f) (Hash f) (Bucket f) (Mime f) (ThumbnailMime f) (Size f)
         (Filename f) (fst wh) (snd wh) (UploadRegion f) (UploadedBy f)
         (UploadedAt f) (Claimed f).

(** ** utils.go: cleanFilename

    The regular expression [[^A-Za-z0-9\.\-\_\+\!\(\)$]] is matched rune by
    rune, so the header's file name is taken as its sequence of code points;
    the result only holds characters of the class and underscores. *)

Definition rune := N.

Definition allowedRune (r : rune) : bool :=
  ((65 <=? r) && (r <=? 90) || (97 <=? r) && (r <=? 122)
   || (48 <=? r) && (r <=? 57)
   || (r =? 46) || (r =? 45) || (r =? 95) || (r =? 43) || (r =? 33)
   || (r =? 40) || (r =? 41) || (r =? 36))%N.

Definition cleanFilename (filename : list rune) : string :=
  fold_right
    (fun r acc => String (if allowedRune r then ascii_of_N r else "_"%char) acc)
    "" filename.

(** ** file.go: the two resize bounds *)

(** Lines 204-218 of [IngestMultipartFile]: the [switch] on the bucket
    followed by the [if]/[else if] on the probed dimensions. *)
Definition bucketCap (bucket : string) : Z :=
  if String.eqb bucket "icons" then 256
  else if String.eqb bucket "emojis" then 128
  else if String.eqb bucket "stickers" then 384
  else 0.

Definition squareSize (bucket : string) (width height : Z) : Z :=
  let desiredSize := bucketCap bucket in
  if width <? desiredSize then width
  else if height <? desiredSize then height
  else desiredSize.

(** [GenerateThumbnail], "Use largest axis that is smaller than 480px". *)
Definition thumbnailSize (width height : Z) : Z :=
  let desiredSize := if width >? height then width else height in
  if desiredSize >? 480 then 480 else desiredSize.

(** "Choose format to convert to": webp unless the frame probe printed
    something other than ["1"]. *)
Definition chooseFormat (frames : string) : string :=
  if String.eqb frames "1" then "webp" else "gif".

Definition isImageBucket (bucket : string) : bool :=
  String.eqb bucket "icons" || String.eqb bucket "emojis"
  || String.eqb bucket "stickers".

(** ** The world the engine acts on *)

(** [s3RegionOrder] and [s3Clients] are package globals filled from the
    configuration at start-up (their declaration is not in the sources at
    hand): a non-empty priority list of regions, with one client per
    region.  [s3RegionOrder[0]] is the primary region. *)
Record Config := mkConfig {
  primaryRegion : string;
  otherRegions : list string
}.

Definition s3RegionOrder (cfg : Config) : list string :=
  primaryRegion cfg :: otherRegions cfg.

(** The regions [range s3Clients] visits. *)
Definition s3Clients (cfg : Config) : list string := s3RegionOrder cfg.

(** An object is remembered by the scratch file it was uploaded from and
    the content type it was stored under. *)
Record Object := mkObject {
  obj_source : string;
  obj_content_type : string
}.

(** Calls made to the object store, newest first. *)
Inductive S3Call :=
| PutCall (region bucket name : string)
| GetCall (region bucket name : string)
| RemoveCall (region bucket name : string).

#[global] Instance S3Call_eq_dec : EqDecision S3Call.
Proof. solve_decision. Defined.

(** Subprocesses started through [exec.Command], newest first; a command
    carries the arguments that vary between runs. *)
Inductive Cmd :=
| FileMimeType
| Sha256sum
| MagickLowQuality
| MagickIdentifyDims (path : string)
| MagickIdentifyFrames
| MagickReencode (size : Z) (format : string)
| MagickOptimize
| FfmpegFirstFrame
| MagickThumbnail (src : string) (size : Z) (format : string).

Record World := mkWorld {
  files : list File;
  blocked_files : list string;
  objects : gmap (string * string * string) Object;
  s3_calls : list S3Call;
  execs : list Cmd
}.

Definition with_files (fs : list File) (w : World) : World :=
  mkWorld fs (blocked_files w) (objects w) (s3_calls w) (execs w).

Definition exec (c : Cmd) (w : World) : World :=
  mkWorld (files w) (blocked_files w) (objects w) (s3_calls w) (c :: execs w).

(** *** The "files" collection *)

Definition sameContent (hashHex bucket : string) (f : File) : bool :=
  String.eqb (Hash f) hashHex && String.eqb (Bucket f) bucket.

(** [FindOne(bson.M{"hash": hashHex, "bucket": bucket})] *)
Definition findOne (hashHex bucket : string) (fs : list File) : option File :=
  find (sameContent hashHex bucket) fs.

(** [InsertOne]: the [_id] index is unique. *)
Definition insertOne (f : File) (fs : list File) : error + list File :=
  if existsb (fun g => String.eqb (Id g) (Id f)) fs
  then inl ErrDuplicateKey
  else inr (fs ++ [f])%list.

(** [DeleteOne(bson.M{"_id": id})] *)
Fixpoint deleteOne (id : string) (fs : list File) : list File :=
  match fs with
  | [] => []
  | f :: rest => if String.eqb (Id f) id then rest else f :: deleteOne id rest
  end.

(** [UpdateMany] setting [thumbnail_mime] on a (hash, bucket) set. *)
Definition updateMany (hashHex bucket mime : string) (fs : list File)
  : list File :=
  map (fun f => if sameContent hashHex bucket f
                then set_ThumbnailMime mime f else f) fs.

(** utils.go, [isFileReferenced]: a count limited to one, compared to 0. *)
Definition isFileReferenced (w : World) (bucket hashHex : string) : bool :=
  existsb (sameContent hashHex bucket) (files w).

(** utils.go, [getBlockStatus] *)
Definition getBlockStatus (w : World) (hashHex : string) : bool :=
  existsb (String.eqb hashHex) (blocked_files w).

(** [GetFile]: by [_id], among the records whose [uploaded_at] is not 0. *)
Definition GetFile (w : World) (id : string) (fail : option error)
  : File * option error :=
  match fail with
  | Some e => (zeroFile, Some e)
  | None =>
      match find (fun f => String.eqb (Id f) id && negb (UploadedAt f =? 0))
                 (files w) with
      | Some f => (f, None)
      | None => (zeroFile, Some ErrNoDocuments)
      end
  end.

(** *** The object store *)

(** [FPutObject] on the primary region's client: [outcome] is the error or
    the uploaded size it returned. *)
Definition putObject (cfg : Config) (bucket name source contentType : string)
    (outcome : error + Z) (w : World) : World :=
  let key := (primaryRegion cfg, bucket, name) in
  mkWorld (files w) (blocked_files w)
          (match outcome with
           | inr _ => <[key := mkObject source contentType]> (objects w)
           | inl _ => objects w
           end)
          (PutCall (primaryRegion cfg) bucket name :: s3_calls w)
          (execs w).

Definition removeObject (region bucket name : string) (ok : bool) (w : World)
  : World :=
  mkWorld (files w) (blocked_files w)
          (if ok then delete (region, bucket, name) (objects w) else objects w)
          (RemoveCall region bucket name :: s3_calls w)
          (execs w).

Definition thumbnailName (hashHex : string) : string :=
  hashHex ++ "_thumbnail".

(** ** file.go: Delete *)

Record DeleteEnv := mkDeleteEnv {
  del_deleteOne : option error;
  del_count : option error;
  (** whether [RemoveObject] succeeded, per region and object name *)
  del_removed : string -> string -> bool
}.

(** The two [go s3Client.RemoveObject(...)] statements of one iteration;
    nothing waits for them and their results are dropped. *)
Definition removeFromRegion (f : File) (env : DeleteEnv) (w : World)
    (region : string) : World :=
  let w1 := removeObject region (Bucket f) (Hash f)
              (del_removed env region (Hash f)) w in
  removeObject region (Bucket f) (thumbnailName (Hash f))
    (del_removed env region (thumbnailName (Hash f))) w1.

Definition Delete (cfg : Config) (w : World) (f : File) (env : DeleteEnv)
  : World * option error :=
  match del_deleteOne env with
  | Some e => (w, Some e)
  | None =>
      let w1 := with_files (deleteOne (Id f) (files w)) w in
      match del_count env with
      | Some e => (w1, Some e)
      | None =>
          if isFileReferenced w1 (Bucket f) (Hash f) then (w1, None)
          else (fold_left (removeFromRegion f env) (s3Clients cfg) w1, None)
      end
  end.

(** ** utils.go: cleanupFiles *)

Record CleanupEnv := mkCleanupEnv {
  gc_now : Z;
  gc_find : option error;
  gc_all : option error;
  (** what the external calls of the [Delete] of a given record id did *)
  gc_delete : string -> DeleteEnv
}.

(** The filter of the [Find]: unclaimed, and uploaded before now - 1800. *)
Definition expired (now : Z) (f : File) : bool :=
  negb (Claimed f) && (UploadedAt f <? wrap64 (now - 1800)).

Fixpoint deleteEach (cfg : Config) (w : World) (fs : list File)
    (env : string -> DeleteEnv) : World * option error :=
  match fs with
  | [] => (w, None)
  | f :: rest =>
      match Delete cfg w f (env (Id f)) with
      | (w1, Some e) => (w1, Some e)
      | (w1, None) => deleteEach cfg w1 rest env
      end
  end.

Definition cleanupFiles (cfg : Config) (w : World) (env : CleanupEnv)
  : World * option error :=
  match gc_find env with
  | Some e => (w, Some e)
  | None =>
      match gc_all env with
      | Some e => (w, Some e)
      | None =>
          deleteEach cfg w (List.filter (expired (gc_now env)) (files w))
                     (gc_delete env)
      end
  end.

(** ** A state-and-error monad for the longer operations

    A computation acts on the world and either fails with the [error] the
    Go code returns at that point or yields a value; what it did to the
    world before failing stays done. *)

Definition M (A : Type) : Type := World -> World * (error + A).

Definition ret {A} (a : A) : M A := fun w => (w, inr a).

Definition fail {A} (e : error) : M A := fun w => (w, inl e).

Definition bind {A B} (c : M A) (k : A -> M B) : M B :=
  fun w => match c w with
           | (w1, inl e) => (w1, inl e)
           | (w1, inr a) => k a w1
           end.

Notation "x <- c ;; k" := (bind c (fun x => k))
  (at level 100, c at next level, right associativity).
Notation "c ;;; k" := (bind c (fun _ => k))
  (at level 100, right associativity).

(** [if err != nil { return err }] *)
Definition check (err : option error) : M unit :=
  match err with Some e => fail e | None => ret tt end.

Definition result {A} (r : error + A) : M A :=
  match r with inl e => fail e | inr a => ret a end.

(** Run a subprocess (its outcome is read from the environment). *)
Definition run (c : Cmd) : M unit := fun w => (exec c w, inr tt).

Definition modify (g : World -> World) : M unit := fun w => (g w, inr tt).

Definition err_of {A} (r : error + A) : option error :=
  match r with inl e => Some e | inr _ => None end.

(** [info.Size]: [info] is the zero [UploadInfo] when the upload failed. *)
Definition size_of (r : error + Z) : Z :=
  match r with inl _ => 0 | inr n => n end.

(** ** file.go: GenerateThumbnail *)

Record ThumbEnv := mkThumbEnv {
  th_mkdir : option error;
  th_getObject : option error;
  th_create : option error;
  th_copy : option error;
  th_frames : error + string;
  th_ffmpeg : option error;
  th_resize : option error;
  th_put : error + Z;
  th_updateMany : option error
}.

(** The call [s3Clients[s3RegionOrder[0]].GetObject(ctx, bucket, name, _)]. *)
Definition s3GetObject (cfg : Config) (bucket name : string)
    (err : option error) : M (string * string * string) :=
  fun w =>
    let w1 := mkWorld (files w) (blocked_files w) (objects w)
                (GetCall (primaryRegion cfg) bucket name :: s3_calls w)
                (execs w) in
    match err with
    | Some e => (w1, inl e)
    | None => (w1, inr (primaryRegion cfg, bucket, name))
    end.

(** Everything [GenerateThumbnail] does before it touches the record:
    fetch the canonical object unless the scratch directory of [f.Id] is
    there ([dirExists]; [firstFrame] tells whether it holds
    [first_frame.jpg]), choose the format, resize and upload.  Yields the
    format. *)
Definition makeThumbnail (cfg : Config) (f : File)
    (dirExists firstFrame : bool) (env : ThumbEnv) : M string :=
  (if dirExists then ret tt
   else
     check (th_mkdir env) ;;;
     (* f.GetObject(false) *)
     _obj <- s3GetObject cfg (Bucket f) (Hash f) (th_getObject env) ;;
     check (th_create env) ;;;
     check (th_copy env)) ;;;
  format <- (if HasPrefix (Mime f) "image/"
             then run MagickIdentifyFrames ;;;
                  frames <- result (th_frames env) ;;
                  ret (chooseFormat frames)
             else ret "webp") ;;
  let desiredSize := thumbnailSize (Width f) (Height f) in
  (if HasPrefix (Mime f) "video/" && negb (dirExists && firstFrame)
   then run FfmpegFirstFrame ;;; check (th_ffmpeg env)
   else ret tt) ;;;
  let fp := if HasPrefix (Mime f) "video/"
            then "first_frame.jpg" else "original" in
  run (MagickThumbnail fp desiredSize format) ;;;
  check (th_resize env) ;;;
  modify (putObject cfg (Bucket f) (thumbnailName (Hash f))
            ("thumbnail." ++ format)%string ("image/" ++ format)%string
            (th_put env)) ;;;
  check (err_of (th_put env)) ;;;
  ret format.

(** The receiver is a pointer: the record comes back as the call left it,
    also when the call fails. *)
Definition GenerateThumbnail (cfg : Config) (f : File)
    (dirExists firstFrame : bool) (env : ThumbEnv) (w : World)
  : World * (File * option error) :=
  match makeThumbnail cfg f dirExists firstFrame env w with
  | (w1, inl e) => (w1, (f, Some e))
  | (w1, inr format) =>
      let f1 := set_ThumbnailMime ("image/" ++ format)%string f in
      match th_updateMany env with
      | Some e => (w1, (f1, Some e))
      | None =>
          (with_files (updateMany (Hash f1) (Bucket f1) (ThumbnailMime f1)
                         (files w1)) w1, (f1, None))
      end
  end.

(** ** file.go: GetObject *)

Record GetEnv := mkGetEnv {
  get_thumb : ThumbEnv;
  get_object : option error
}.

Definition wantsThumbnail (f : File) (thumbnail : bool) : bool :=
  thumbnail && String.eqb (Bucket f) "attachments"
  && (HasPrefix (Mime f) "image/" || HasPrefix (Mime f) "video/").

(** Returns the record as the call left it, and the error or the object
    asked from the primary region. *)
Definition GetObject (cfg : Config) (f : File) (thumbnail : bool)
    (env : GetEnv) (w : World)
  : World * (File * (error + string * string * string)) :=
  if wantsThumbnail f thumbnail then
    let '(w1, (f1, err)) :=
      if String.eqb (ThumbnailMime f) ""
      then GenerateThumbnail cfg f false false (get_thumb env) w
      else (w, (f, None)) in
    match err with
    | Some e => (w1, (f1, inl e))
    | None =>
        let '(w2, obj) :=
          s3GetObject cfg (Bucket f1) (thumbnailName (Hash f1))
            (get_object env) w1 in
        (w2, (f1, obj))
    end
  else
    let '(w1, obj) := s3GetObject cfg (Bucket f) (Hash f) (get_object env) w in
    (w1, (f, obj)).

(** ** file.go: IngestMultipartFile *)

(** The canonical upload runs in a goroutine that assigns the shared
    variable [err]; the main goroutine and the thumbnail goroutine assign
    it too.  Each assignment is taken as atomic, and the schedule tells
    where the upload's assignment lands among the others:
    - [LandsEarly]: before a later assignment, which overwrites it;
    - [LandsBeforeFfmpegCheck], [LandsBeforeIdentifyCheck]: between an
      assignment of the main goroutine (video branch) and the test of
      [err] that follows it;
    - [LandsLast]: after the thumbnail goroutine's assignment.
    The object store sees the upload when its goroutine is started, and a
    started goroutine runs to its end whatever the function returns. *)
Inductive UploadLands :=
| LandsEarly
| LandsBeforeFfmpegCheck
| LandsBeforeIdentifyCheck
| LandsLast.

#[global] Instance UploadLands_eq_dec : EqDecision UploadLands.
Proof. solve_decision. Defined.

Record IngestEnv := mkIngestEnv {
  env_generateId : error + string;
  env_mkdir : option error;
  env_create : option error;
  env_copy : option error;
  (** the MIME type printed by [file] in the "Ultra HD" step *)
  env_ultra_mime : string;
  (** the first field printed by [sha256sum] *)
  env_sha256sum : error + string;
  env_getBlockStatus : option error;
  env_findOne : option error;
  env_now : Z;
  env_mime : error + string;
  env_identify : error + (Z * Z);
  env_frames : error + string;
  (** the [magick] call that writes the canonical file *)
  env_convert : option error;
  (** [FPutObject] of the canonical object: the error or [info.Size] *)
  env_upload : error + Z;
  (** dimensions of the re-encoded file (the probe's error is dropped) *)
  env_reprobe : Z * Z;
  env_ffmpeg : option error;
  env_first_frame_err : option error;
  env_first_frame_dims : Z * Z;
  env_thumb : ThumbEnv;
  env_sched : UploadLands;
  env_insertOne : option error
}.

(** The value of [err] once the upload's assignment may have landed at
    the point [here]. *)
Definition lands (env : IngestEnv) (here : UploadLands)
    (err : option error) : option error :=
  if decide (env_sched env = here) then err_of (env_upload env) else err.

(** Buckets "icons", "emojis" and "stickers" (lines 176-269). *)
Definition ingestSquare (cfg : Config) (env : IngestEnv)
    (bucket hashHex : string) (f : File) : M File :=
  if negb (HasPrefix (Mime f) "image/") then fail ErrUnsupportedFile
  else
    run MagickIdentifyFrames ;;;
    frames <- result (env_frames env) ;;
    let format := chooseFormat frames in
    let f1 := set_Mime ("image/" ++ format)%string f in
    let desiredSize := squareSize bucket (Width f1) (Height f1) in
    run (MagickReencode desiredSize format) ;;;
    check (env_convert env) ;;;
    (* first goroutine: info, err = FPutObject(...); f.Size = info.Size *)
    modify (putObject cfg bucket hashHex ("." ++ format)%string
              ("image/" ++ format)%string (env_upload env)) ;;;
    let f2 := set_Size (size_of (env_upload env)) f1 in
    (* second goroutine: the dimensions of the re-encoded file *)
    run (MagickIdentifyDims ("." ++ format)%string) ;;;
    let f3 := set_dims (env_reprobe env) f2 in
    (* wg.Wait(); err is not read again *)
    ret f3.

(** Bucket "attachments", MIME starting with "image" (lines 271-315). *)
Definition ingestAttachmentImage (cfg : Config) (env : IngestEnv)
    (bucket hashHex : string) (f : File) : M File :=
  run MagickOptimize ;;;
  check (env_convert env) ;;;
  modify (putObject cfg bucket hashHex "optimized" (Mime f)
            (env_upload env)) ;;;
  fun w =>
    let '(w1, (f1, terr)) :=
      GenerateThumbnail cfg f true false (env_thumb env) w in
    (* wg.Wait() *)
    match lands env LandsLast terr with
    | Some e => (w1, inl e)
    | None => (w1, inr (set_Size (size_of (env_upload env)) f1))
    end.

(** Bucket "attachments", MIME starting with "video" (lines 316-379). *)
Definition ingestAttachmentVideo (cfg : Config) (env : IngestEnv)
    (bucket hashHex : string) (f : File) : M File :=
  modify (putObject cfg bucket hashHex "original" (Mime f)
            (env_upload env)) ;;;
  run FfmpegFirstFrame ;;;
  check (lands env LandsBeforeFfmpegCheck (env_ffmpeg env)) ;;;
  run (MagickIdentifyDims "first_frame.jpg") ;;;
  check (lands env LandsBeforeIdentifyCheck (env_first_frame_err env)) ;;;
  let f1 := set_dims (env_first_frame_dims env) f in
  fun w =>
    let '(w1, (f2, terr)) :=
      GenerateThumbnail cfg f1 true true (env_thumb env) w in
    (* wg.Wait() *)
    match lands env LandsLast terr with
    | Some e => (w1, inl e)
    | None => (w1, inr (set_Size (size_of (env_upload env)) f2))
    end.

(** Bucket "attachments", any other MIME (lines 380-395). *)
Definition ingestAttachmentOther (cfg : Config) (env : IngestEnv)
    (bucket hashHex : string) (f : File) : M File :=
  modify (putObject cfg bucket hashHex "original" (Mime f)
            (env_upload env)) ;;;
  check (err_of (env_upload env)) ;;;
  ret (set_Size (size_of (env_upload env)) f).

(** The [else] branch of "Process and save file": new content. *)
Definition ingestNew (cfg : Config) (env : IngestEnv)
    (bucket : string) (filename : list rune) (uploader : User)
    (id hashHex : string) : M File :=
  let f := mkFile id hashHex bucket "" "" 0 (cleanFilename filename) 0 0
             (primaryRegion cfg) (Username uploader) (env_now env) false in
  run FileMimeType ;;;
  mime <- result (env_mime env) ;;
  let f := set_Mime mime f in
  f <- (if HasPrefix (Mime f) "image/"
        then run (MagickIdentifyDims "original") ;;;
             dims <- result (env_identify env) ;;
             ret (set_dims dims f)
        else ret f) ;;
  if isImageBucket bucket then ingestSquare cfg env bucket hashHex f
  else if String.eqb bucket "attachments" then
    if HasPrefix (Mime f) "image"
    then ingestAttachmentImage cfg env bucket hashHex f
    else if HasPrefix (Mime f) "video"
    then ingestAttachmentVideo cfg env bucket hashHex f
    else ingestAttachmentOther cfg env bucket hashHex f
  else ret f.

(** The dedup fast path: the decoded record with four fields replaced. *)
Definition reuseRecord (env : IngestEnv) (filename : list rune)
    (uploader : User) (id : string) (f : File) : File :=
  mkFile id (Hash f) (Bucket f) (Mime f) (ThumbnailMime f) (Size f)
         (cleanFilename filename) (Width f) (Height f) (UploadRegion f)
         (Username uploader) (env_now env) (Claimed f).

(** Everything up to the record that is to be inserted. *)
Definition prepareFile (cfg : Config) (env : IngestEnv)
    (bucket : string) (filename : list rune) (uploader : User) : M File :=
  id <- result (env_generateId env) ;;
  check (env_mkdir env) ;;;
  check (env_create env) ;;;
  check (env_copy env) ;;;
  (if negb (Z.land (Flags uploader) FlagUltraHDUploads =? 0)
   then run FileMimeType ;;;
        if HasPrefix (env_ultra_mime env) "image/"
        then run MagickLowQuality else ret tt
   else ret tt) ;;;
  run Sha256sum ;;;
  hashHex <- result (env_sha256sum env) ;;
  check (env_getBlockStatus env) ;;;
  (fun w => if getBlockStatus w hashHex
            then (w, inl ErrFileBlocked) else (w, inr tt)) ;;;
  check (env_findOne env) ;;;
  f <- (fun w => (w, inr (match findOne hashHex bucket (files w) with
                          | Some r => r
                          | None => zeroFile
                          end))) ;;
  if String.eqb (Hash f) hashHex
  then ret (reuseRecord env filename uploader id f)
  else ingestNew cfg env bucket filename uploader id hashHex.

(** The function returns [(nil, err)] when the preparation fails,
    [(&f, err)] when the insertion fails and [(&f, nil)] otherwise. *)
Definition IngestMultipartFile (cfg : Config) (w : World) (bucket : string)
    (filename : list rune) (uploader : User) (env : IngestEnv)
  : World * (option File * option error) :=
  match prepareFile cfg env bucket filename uploader w with
  | (w1, inl e) => (w1, (None, Some e))
  | (w1, inr f) =>
      match env_insertOne env with
      | Some e => (w1, (Some f, Some e))
      | None =>
          match insertOne f (files w1) with
          | inl e => (w1, (Some f, Some e))
          | inr fs => (with_files fs w1, (Some f, None))
          end
      end
  end.

(** ** utils.go: generateId

    [base64.URLEncoding] is RFC 4648's URL-safe alphabet with '=' padding:
    three bytes give four characters, a last group of one or two bytes is
    padded to four. *)

Definition urlAlphabet : string :=
  "ABCDEFGHIJKLMNOPQRSTUVWXYZabcdefghijklmnopqrstuvwxyz0123456789-_".

Definition sextet (n : N) : ascii :=
  match String.get (N.to_nat n) urlAlphabet with
  | Some c => c
  | None => "="%char
  end.

Fixpoint EncodeToString (b : list Byte.byte) : string :=
  match b with
  | [] => ""
  | [x] =>
      let x := Byte.to_N x in
      String (sextet (x / 4)) (String (sextet (x mod 4 * 16)) "==")
  | [x; y] =>
      let x := Byte.to_N x in
      let y := Byte.to_N y in
      String (sextet (x / 4))
        (String (sextet (x mod 4 * 16 + y / 16))
           (String (sextet (y mod 16 * 4)) "="))
  | x :: y :: z :: rest =>
      let x := Byte.to_N x in
      let y := Byte.to_N y in
      let z := Byte.to_N z in
      String (sextet (x / 4))
        (String (sextet (x mod 4 * 16 + y / 16))
           (String (sextet (y mod 16 * 4 + z / 64))
              (String (sextet (z mod 64)) (EncodeToString rest))))
  end%N.

(** [strings.ReplaceAll(s, old, new)] for one-character [old] and [new]. *)
Fixpoint ReplaceAll (s : string) (old new : ascii) : string :=
  match s with
  | EmptyString => EmptyString
  | String c rest =>
      String (if Ascii.eqb c old then new else c) (ReplaceAll rest old new)
  end.

(** [random] is what [rand.Read] did with the 18-byte buffer: the error,
    or the bytes it filled in. *)
Definition generateId (random : error + list Byte.byte) : error + string :=
  match random with
  | inl e => inl e
  | inr b =>
      let id := EncodeToString b in
      let id := ReplaceAll id "-" "a" in
      let id := ReplaceAll id "_" "b" in
      let id := ReplaceAll id "=" "c" in
      inr id
  end.

(** ** router.go

    A response is its status code, the headers the handler sets itself
    and what it writes.  [http.Error] is a status with a message; the
    copy of the object into the response body ([io.Copy]) is not
    followed. *)

Inductive HeaderValue :=
| HText (s : string)
| HDecimal (n : Z).

Inductive Body :=
| NoBody
| Message (msg : string)
| Json (f : File)
| Stream (obj : string * string * string).

Record Response := mkResponse {
  status : Z;
  headers : list (string * HeaderValue);
  body : Body
}.

Definition httpError (msg : string) (code : Z) : Response :=
  mkResponse code [] (Message msg).

(** The four size limits, as [strconv.ParseInt(os.Getenv(...), 10, 32)]
    returns them (0 when the variable does not parse). *)
Record Limits := mkLimits {
  maxIconSizeMib : Z;
  maxEmojiSizeMib : Z;
  maxStickerSizeMib : Z;
  maxAttachmentSizeMib : Z
}.

(** The map literal indexed by the bucket: a missing key reads as 0. *)
Definition sizeLimit (lim : Limits) (bucket : string) : Z :=
  if String.eqb bucket "icons" then wrap64 (Z.shiftl (maxIconSizeMib lim) 20)
  else if String.eqb bucket "emojis"
  then wrap64 (Z.shiftl (maxEmojiSizeMib lim) 20)
  else if String.eqb bucket "stickers"
  then wrap64 (Z.shiftl (maxStickerSizeMib lim) 20)
  else if String.eqb bucket "attachments"
  then wrap64 (Z.shiftl (maxAttachmentSizeMib lim) 20)
  else 0.

Record UploadRequest := mkUploadRequest {
  (** [getUserByToken] on the Authorization header *)
  up_user : error + User;
  (** [r.FormFile("file")]: the header's file name and size *)
  up_form : error + (list rune * Z);
  up_bucket : string
}.

Definition uploadFile (cfg : Config) (lim : Limits) (w : World)
    (req : UploadRequest) (env : IngestEnv) : World * Response :=
  match up_user req with
  | inl _ => (w, httpError "Invalid or missing token" 401)
  | inr user =>
      match up_form req with
      | inl _ => (w, httpError "Invalid form" 400)
      | inr (filename, size) =>
          if size >? sizeLimit lim (up_bucket req)
          then (w, httpError "File too large" 413)
          else
            match IngestMultipartFile cfg w (up_bucket req) filename user env
            with
            | (w1, (_, Some err)) =>
                (w1,
                 if decide (err = ErrUnsupportedFile)
                 then httpError "Unsupported file format" 403
                 else if decide (err = ErrFileBlocked)
                 then httpError "File blocked" 403
                 else httpError "Failed to ingest file" 500)
            | (w1, (Some f, None)) =>
                (w1, mkResponse 200
                       [("Content-Type", HText "application/json")] (Json f))
            | (w1, (None, None)) =>
                (* not returned by IngestMultipartFile *)
                (w1, httpError "Failed to send file details" 500)
            end
      end
  end.

Record DownloadRequest := mkDownloadRequest {
  dl_id : string;
  dl_bucket : string;
  (** request headers, empty when absent *)
  dl_etag : string;
  dl_if_none_match : string;
  (** [r.URL.Query().Has(...)] *)
  dl_thumbnail : bool;
  dl_preview : bool;
  dl_download : bool;
  (** [chi.URLParam(r, "*")] *)
  dl_filename : string
}.

Record DownloadEnv := mkDownloadEnv {
  dl_getFile : option error;
  dl_get : GetEnv
}.

Definition requestsThumbnail (req : DownloadRequest) (f : File) : bool :=
  if HasPrefix (Mime f) "image/" && (dl_thumbnail req || dl_preview req)
  then true
  else if HasPrefix (Mime f) "video/" && dl_thumbnail req then true
  else false.

Definition isMedia (f : File) : bool :=
  HasPrefix (Mime f) "image/" || HasPrefix (Mime f) "video/"
  || HasPrefix (Mime f) "audio/".

Definition contentDisposition (req : DownloadRequest) (f : File) : string :=
  let filename := if String.eqb (dl_filename req) "" then Id f
                  else dl_filename req in
  if dl_download req || negb (isMedia f)
  then ("attachment; filename=" ++ filename)%string
  else ("inline; filename=" ++ filename)%string.

Definition downloadFile (cfg : Config) (w : World) (req : DownloadRequest)
    (env : DownloadEnv) : World * Response :=
  match GetFile w (dl_id req) (dl_getFile env) with
  | (_, Some _) => (w, httpError "Not found" 404)
  | (f, None) =>
      if negb (String.eqb (Bucket f) (dl_bucket req))
      then (w, httpError "Not found" 404)
      else if String.eqb (dl_etag req) (Id f)
              || String.eqb (dl_if_none_match req) (Id f)
      then (w, mkResponse 304 [] NoBody)
      else
        let thumbnail := requestsThumbnail req f in
        match GetObject cfg f thumbnail (dl_get env) w with
        | (w1, (_, inl _)) => (w1, httpError "Failed to get object" 500)
        | (w1, (f1, inr obj)) =>
            (w1,
             mkResponse 200
               [("Content-Type",
                 HText (if thumbnail then ThumbnailMime f1 else Mime f1));
                ("Content-Length", HDecimal (Size f1));
                ("ETag", HText (Id f1));
                ("Cache-Control", HText "pbulic, max-age=31536000");
                ("Content-Disposition", HText (contentDisposition req f1))]
               (Stream obj))
        end
  end.

(** ** Vocabulary of the statements *)

(** The world once the upload has been saved and hashed: only the
    subprocess log has grown. *)
Definition hashed (uploader : User) (env : IngestEnv) (w : World) : World :=
  let w1 :=
    if negb (Z.land (Flags uploader) FlagUltraHDUploads =? 0)
    then (if HasPrefix (env_ultra_mime env) "image/"
          then exec MagickLowQuality (exec FileMimeType w)
          else exec FileMimeType w)
    else w in
  exec Sha256sum w1.

(** An upload that gets as far as the dedup lookup with content hash
    [hashHex] under the identifier [id].  The hash is a field returned by
    [strings.Fields], hence never empty. *)
Definition reachesLookup (w : World) (env : IngestEnv) (id hashHex : string)
  : Prop :=
  env_generateId env = inr id /\ env_mkdir env = None
  /\ env_create env = None /\ env_copy env = None
  /\ env_sha256sum env = inr hashHex /\ String.eqb hashHex "" = false
  /\ env_getBlockStatus env = None /\ getBlockStatus w hashHex = false
  /\ env_findOne env = None.

(** New content: the lookup finds no record for (hash, bucket). *)
Definition newContent (w : World) (env : IngestEnv) (bucket id hashHex : string)
  : Prop :=
  reachesLookup w env id hashHex /\ findOne hashHex bucket (files w) = None.

Definition idFree (id : string) (w : World) : bool :=
  negb (existsb (fun g => String.eqb (Id g) id) (files w)).

(** Identifiers are unique in the collection (MongoDB's [_id] index). *)
Definition uniqueIds (w : World) : Prop := NoDup (map Id (files w)).

(** How often the canonical object of (bucket, hash) was written. *)
Definition canonicalWrites (cfg : Config) (bucket hashHex : string)
    (w : World) : nat :=
  count_occ S3Call_eq_dec (s3_calls w)
            (PutCall (primaryRegion cfg) bucket hashHex).


(** *** The codec's resize

    [magick src -resize NxN dst] is an external capability.  Statements
    about the pixels of a thumbnail take it as a function from the bound
    and the source dimensions to the result's dimensions, under this
    contract: the result fits the N x N box, its sides are those of the
    source scaled by one common factor up to one pixel of rounding, and a
    bound that does not exceed the longer side never enlarges. *)
Definition ResizeContract (resize : Z -> Z * Z -> Z * Z) : Prop :=
  forall N w h, 0 < N -> 0 < w -> 0 < h ->
    let '(w', h') := resize N (w, h) in
    (0 < w' <= N /\ 0 < h' <= N)
    /\ Z.abs (w' * h - h' * w) <= Z.max w h
    /\ (N <= Z.max w h -> w' <= w /\ h' <= h).

(** A resize with that contract: scale by N / max(w, h), round each side
    to the nearest pixel, keep at least one pixel. *)
Definition scaleSide (N longest x : Z) : Z :=
  Z.max 1 ((2 * x * N + longest) / (2 * longest)).

Definition nearestFit (N : Z) (wh : Z * Z) : Z * Z :=
  let longest := Z.max (fst wh) (snd wh) in
  (scaleSide N longest (fst wh), scaleSide N longest (snd wh)).

(** The guard of [GetObject] without the request flag. *)
Definition thumbnailEligible (f : File) : bool :=
  String.eqb (Bucket f) "attachments"
  && (HasPrefix (Mime f) "image/" || HasPrefix (Mime f) "video/").

(** The collection after the [DeleteOne] of each target in turn. *)
Definition deleteIds (targets fs : list File) : list File :=
  fold_left (fun acc t => deleteOne (Id t) acc) targets fs.

Definition targeted (targets : list File) (g : File) : bool :=
  existsb (fun t => String.eqb (Id t) (Id g)) targets.


(** Unfolding the monad, everywhere or in one hypothesis. *)
Ltac run_steps :=
  unfold bind, run, result, check, modify, ret, fail in *; cbn in *.

Ltac steps_in H :=
  unfold bind, run, result, check, modify, ret, fail in H;
  cbv beta iota zeta in H.

(** Letters and digits. *)
Definition alnum (c : ascii) : bool :=
  let n := N_of_ascii c in
  ((65 <=? n) && (n <=? 90) || (97 <=? n) && (n <=? 122)
   || (48 <=? n) && (n <=? 57))%N.

Fixpoint chars (s : string) : list ascii :=
  match s with
  | EmptyString => []
  | String c rest => c :: chars rest
  end.

(** A name read back as code points (it is ASCII once cleaned). *)
Definition runes (s : string) : list rune := map N_of_ascii (chars s).

(** The three replacements, seen on one character. *)
Definition idChar (c : ascii) : ascii :=
  let c := if Ascii.eqb c "-" then "a"%char else c in
  let c := if Ascii.eqb c "_" then "b"%char else c in
  if Ascii.eqb c "=" then "c"%char else c.

Fixpoint mapChars (g : ascii -> ascii) (s : string) : string :=
  match s with
  | EmptyString => EmptyString
  | String c rest => String (g c) (mapChars g rest)
  end.

(** The fields of a record that say which upload it stands for. *)
Definition stamp (f : File)
  : string * string * string * string * string * string * Z * bool :=
  (Id f, Hash f, Bucket f, Filename f, UploadRegion f, UploadedBy f,
   UploadedAt f, Claimed f).

(** An upload that gets as far as the block-list lookup. *)
Definition reachesBlockList (env : IngestEnv) (id hashHex : string) : Prop :=
  env_generateId env = inr id /\ env_mkdir env = None
  /\ env_create env = None /\ env_copy env = None
  /\ env_sha256sum env = inr hashHex /\ env_getBlockStatus env = None.

(** A computation that leaves the identifiers of the collection alone. *)
Definition keepsIds {A} (c : M A) : Prop :=
  forall w, map Id (files (fst (c w))) = map Id (files w).

(** *** Sample data *)

(** A world in which the hash "h1" is on the block list. *)
Definition blockedWorld : World := mkWorld [] ["h0"; "h1"] ∅ [] [].



Definition cfg0 : Config := mkConfig "local" ["eu"].

Definition alice : User := mkUser "alice" 0.
Definition bob : User := mkUser "bob" 0.

(** "cat.png" *)
Definition catPng : list rune := [99; 97; 116; 46; 112; 110; 103]%N.

Definition emptyWorld : World := mkWorld [] [] ∅ [] [].

Definition okThumb : ThumbEnv :=
  mkThumbEnv None None None None (inr "1") None None (inr 900) None.

(** An ingestion in which every external call succeeds, except that the
    canonical upload has the outcome [upload]. *)
Definition sampleEnv (id hashHex mime : string) (dims : Z * Z)
    (frames : string) (upload : error + Z) (sched : UploadLands) (now : Z)
  : IngestEnv :=
  mkIngestEnv (inr id) None None None mime (inr hashHex) None None now
              (inr mime) (inr dims) (inr frames) None upload dims None None
              dims okThumb sched None.

Definition okDelete : DeleteEnv := mkDeleteEnv None None (fun _ _ => true).

(** As [okDelete], but the region "eu" refuses every removal. *)
Definition euDown : DeleteEnv :=
  mkDeleteEnv None None (fun region _ => negb (String.eqb region "eu")).

Definition sampleFile (id hashHex bucket : string) (at_ : Z) (claimed : bool)
  : File :=
  mkFile id hashHex bucket "image/png" "" 10 "cat.png" 64 64 "local" "alice"
         at_ claimed.

Definition sampleObject : Object := mkObject ".webp" "image/webp".

(** The canonical object and the thumbnail of hash "h1" in both regions. *)
Definition twoRegionObjects : gmap (string * string * string) Object :=
  list_to_map
    [(("local", "icons", "h1"), sampleObject);
     (("local", "icons", "h1_thumbnail"), sampleObject);
     (("eu", "icons", "h1"), sampleObject);
     (("eu", "icons", "h1_thumbnail"), sampleObject)].

(** One record for ("h1", "icons") ... *)
Definition soleWorld : World :=
  mkWorld [sampleFile "id1" "h1" "icons" 5 false] [] twoRegionObjects [] [].

(** ... and two records sharing it. *)
Definition sharedWorld : World :=
  mkWorld [sampleFile "id1" "h1" "icons" 5 false;
           sampleFile "id2" "h1" "icons" 7 true]
          [] twoRegionObjects [] [].

(** Three records seen at time 10000: an old unclaimed one, an old claimed
    one and a recent unclaimed one. *)
Definition gcWorld : World :=
  mkWorld [sampleFile "id1" "h1" "icons" 5 false;
           sampleFile "id2" "h2" "icons" 5 true;
           sampleFile "id3" "h3" "icons" 9000 false]
          [] twoRegionObjects [] [].

Definition okCleanup (now : Z) : CleanupEnv :=
  mkCleanupEnv now None None (fun _ => okDelete).

(** A world in which "h1" is already stored in "icons" under a record
    that a downstream feature has claimed. *)
Definition claimedWorld : World :=
  mkWorld [sampleFile "id2" "h1" "icons" 7 true] [] twoRegionObjects [] [].

Definition putFails : error + Z := inl (ErrIO "put").

(** The same picture uploaded to "icons" by alice and then by bob. *)
Definition firstUpload : World * (option File * option error) :=
  IngestMultipartFile cfg0 emptyWorld "icons" catPng alice
    (sampleEnv "id1" "h1" "image/png" (64, 64) "1" (inr 77) LandsEarly 1000).

Definition secondUpload : World * (option File * option error) :=
  IngestMultipartFile cfg0 (fst firstUpload) "icons" catPng bob
    (sampleEnv "id9" "h1" "image/png" (64, 64) "1" (inr 77) LandsEarly 5000).

Definition aliceIcon : File :=
  mkFile "id1" "h1" "icons" "image/webp" "" 77 "cat.png" 64 64 "local"
         "alice" 1000 false.

Definition bobIcon : File :=
  mkFile "id9" "h1" "icons" "image/webp" "" 77 "cat.png" 64 64 "local"
         "bob" 5000 false.

(** Two buffers of 18 random bytes that differ in the first byte. *)
Definition randomF8 : list Byte.byte := Byte.xf8 :: repeat Byte.x00 17.
Definition random68 : list Byte.byte := Byte.x68 :: repeat Byte.x00 17.

(** * Properties *)

Example cleanFilename_cat : cleanFilename catPng = "cat.png".
Proof. reflexivity. Qed.

(** "a b" followed by U+00E9 and "(1).PNG": the space and the accented
    letter each become one underscore. *)
Example cleanFilename_replaces :
  cleanFilename [97; 32; 98; 233; 40; 49; 41; 46; 80; 78; 71]%N
  = "a_b_(1).PNG".
Proof. reflexivity. Qed.

(** ** Resize bounds *)

Lemma bucketCap_cases (bucket : string) :
  isImageBucket bucket = true ->
  (bucket = "icons" /\ bucketCap bucket = 256)
  \/ (bucket = "emojis" /\ bucketCap bucket = 128)
  \/ (bucket = "stickers" /\ bucketCap bucket = 384).
Proof.
  unfold isImageBucket, bucketCap. intros H.
  destruct (String.eqb_spec bucket "icons") as [E|_]; [subst; left; auto|].
  destruct (String.eqb_spec bucket "emojis") as [E|_];
    [subst; right; left; auto|].
  destruct (String.eqb_spec bucket "stickers") as [E|_];
    [subst; right; right; auto | discriminate].
Qed.

Lemma squareSize_unfold (bucket : string) (w h : Z) :
  squareSize bucket w h
  = if w <? bucketCap bucket then w else Z.min (bucketCap bucket) h.
Proof.
  unfold squareSize. cbv zeta.
  destruct (Z.ltb_spec w (bucketCap bucket)); [reflexivity|].
  destruct (Z.ltb_spec h (bucketCap bucket)); lia.
Qed.

(** The re-encode of the icon, emoji and sticker buckets is run with the
    bound [squareSize] computes from the record's probed dimensions. *)
Lemma ingestSquare_reencode cfg env bucket hashHex f frames w :
  HasPrefix (Mime f) "image/" = true ->
  env_frames env = inr frames ->
  In (MagickReencode (squareSize bucket (Width f) (Height f))
                     (chooseFormat frames))
     (execs (fst (ingestSquare cfg env bucket hashHex f w))).
Proof.
  intros Himg Hfr. unfold ingestSquare. rewrite Himg. cbn [negb].
  unfold bind, run, result, check, modify, ret, fail. rewrite Hfr.
  destruct (env_convert env); cbn; auto.
Qed.

(** C2, as amended: in an icon, emoji or sticker bucket (caps 256, 128,
    384) the bound of the canonical re-encode is the source width when the
    width is below the cap, and min(cap, source height) otherwise.  It
    never exceeds the cap nor the longer source side, so the box never
    enlarges the image, and it equals min(cap, min(width, height)) when
    the width does not exceed the height or reaches the cap. *)
Theorem squareSize_bound (bucket : string) (w h : Z) :
  isImageBucket bucket = true ->
  let cap := bucketCap bucket in
  (bucket = "icons" /\ cap = 256 \/ bucket = "emojis" /\ cap = 128
   \/ bucket = "stickers" /\ cap = 384)
  /\ squareSize bucket w h = (if w <? cap then w else Z.min cap h)
  /\ squareSize bucket w h <= cap
  /\ squareSize bucket w h <= Z.max w h
  /\ (w <= h \/ cap <= w -> squareSize bucket w h = Z.min cap (Z.min w h))
  /\ (forall cfg env hashHex f frames w0,
        Width f = w -> Height f = h ->
        HasPrefix (Mime f) "image/" = true -> env_frames env = inr frames ->
        In (MagickReencode (squareSize bucket w h) (chooseFormat frames))
           (execs (fst (ingestSquare cfg env bucket hashHex f w0)))).
Proof.
  intros Hb cap. pose proof (bucketCap_cases bucket Hb) as Hc.
  split; [exact Hc|].
  pose proof (squareSize_unfold bucket w h) as Hu. fold cap in Hu.
  assert (0 < cap) by (subst cap; destruct Hc as [[_ ->]|[[_ ->]|[_ ->]]]; lia).
  split; [exact Hu|].
  repeat split.
  - rewrite Hu. destruct (Z.ltb_spec w cap); lia.
  - rewrite Hu. destruct (Z.ltb_spec w cap); lia.
  - intros Hor. rewrite Hu. destruct (Z.ltb_spec w cap); lia.
  - intros cfg env hashHex f frames w0 <- <- Himg Hfr.
    now apply ingestSquare_reencode.
Qed.

Lemma squareSize_bound_witness :
  squareSize "emojis" 500 300 = 128
  /\ squareSize "emojis" 500 300 <= Z.max 500 300.
Proof.
  destruct (squareSize_bound "emojis" 500 300) as (_ & H1 & _ & H2 & _).
  - reflexivity.
  - split; [rewrite H1; reflexivity | exact H2].
Defined.

(** C2 as stated fails: a 100 x 50 icon is re-encoded with the bound 100,
    while min(256, min(100, 50)) is 50. *)
Lemma squareSize_not_min :
  squareSize "icons" 100 50 = 100
  /\ Z.min (bucketCap "icons") (Z.min 100 50) = 50
  /\ In (MagickReencode 100 "webp")
        (execs (fst (IngestMultipartFile cfg0 emptyWorld "icons" catPng alice
                       (sampleEnv "id1" "h1" "image/png" (100, 50) "1"
                          (inr 77) LandsEarly 1000))))
  /\ ~ (forall bucket w h, isImageBucket bucket = true ->
          squareSize bucket w h = Z.min (bucketCap bucket) (Z.min w h)).
Proof.
  split; [reflexivity|]. split; [reflexivity|]. split.
  - vm_compute. tauto.
  - intros H. specialize (H "icons" 100 50 eq_refl). vm_compute in H.
    discriminate.
Qed.

Lemma thumbnailSize_min (w h : Z) :
  thumbnailSize w h = Z.min 480 (Z.max w h).
Proof.
  unfold thumbnailSize. cbv zeta.
  destruct (Z.gtb_spec w h); [destruct (Z.gtb_spec w 480)
                             | destruct (Z.gtb_spec h 480)]; lia.
Qed.

(** A thumbnail that got made was resized with the bound [thumbnailSize]
    computes from the record's dimensions. *)
Lemma makeThumbnail_resize cfg f dirExists firstFrame env w0 w1 format :
  makeThumbnail cfg f dirExists firstFrame env w0 = (w1, inr format) ->
  exists fp,
    In (MagickThumbnail fp (thumbnailSize (Width f) (Height f)) format)
       (execs w1).
Proof.
  unfold makeThumbnail, s3GetObject. intros H.
  exists (if HasPrefix (Mime f) "video/" then "first_frame.jpg" else "original").
  destruct env as [mk go cr cp fr ff rs pt um]. cbn in H.
  destruct dirExists, (HasPrefix (Mime f) "image/"),
    (HasPrefix (Mime f) "video/"), firstFrame, mk, go, cr, cp, fr, ff, rs, pt;
    run_steps; inversion H; subst; cbn; auto.
Qed.

Lemma scaleSide_spec (N M x : Z) :
  0 < N -> 0 < x <= M ->
  let q := (2 * x * N + M) / (2 * M) in
  0 <= q <= N
  /\ 2 * M * q <= 2 * x * N + M < 2 * M * q + 2 * M
  /\ scaleSide N M x = Z.max 1 q.
Proof.
  intros HN Hx q.
  assert (Hm : 0 < 2 * M) by lia.
  pose proof (Z.mul_div_le (2 * x * N + M) (2 * M) Hm) as H1.
  pose proof (Z.mul_succ_div_gt (2 * x * N + M) (2 * M) Hm) as H2.
  fold q in H1, H2.
  repeat split; try lia; try nia.
Qed.

Lemma nearestFit_contract : ResizeContract nearestFit.
Proof.
  intros N w h HN Hw Hh. unfold nearestFit. cbn [fst snd].
  set (M := Z.max w h).
  assert (HwM : 0 < w <= M) by lia. assert (HhM : 0 < h <= M) by lia.
  destruct (scaleSide_spec N M w HN HwM) as (Hq1 & Hq2 & ->).
  destruct (scaleSide_spec N M h HN HhM) as (Hr1 & Hr2 & ->).
  set (q := (2 * w * N + M) / (2 * M)) in *.
  set (r := (2 * h * N + M) / (2 * M)) in *.
  split; [lia|]. split.
  - assert (M = w \/ M = h) as [E|E] by lia.
    + assert (q = N) by nia. rewrite E in *.
      destruct (Z.max_spec 1 r) as [[? ->]|[? ->]];
        destruct (Z.max_spec 1 q) as [[? ->]|[? ->]]; nia.
    + assert (r = N) by nia. rewrite E in *.
      destruct (Z.max_spec 1 r) as [[? ->]|[? ->]];
        destruct (Z.max_spec 1 q) as [[? ->]|[? ->]]; nia.
  - intros HNM. split.
    + assert (q <= w) by nia. lia.
    + assert (r <= h) by nia. lia.
Qed.

(** The scenario of a 1000 x 500 attachment image. *)
Example nearestFit_1000_500 :
  nearestFit (thumbnailSize 1000 500) (1000, 500) = (480, 240).
Proof. reflexivity. Qed.

(** C9: the thumbnail's resize bound is min(480, max(width, height)) of
    the source; with a codec whose resize keeps the contract above, the
    longer side of every thumbnail is at most 480 pixels, the aspect ratio
    is the source's up to rounding, and no side is enlarged.  Every
    thumbnail [GenerateThumbnail] makes is resized with that bound. *)
Theorem thumbnail_bound (resize : Z -> Z * Z -> Z * Z) (w h : Z) :
  ResizeContract resize -> 0 < w -> 0 < h ->
  let N := thumbnailSize w h in
  N = Z.min 480 (Z.max w h)
  /\ Z.max (fst (resize N (w, h))) (snd (resize N (w, h))) <= 480
  /\ Z.abs (fst (resize N (w, h)) * h - snd (resize N (w, h)) * w)
     <= Z.max w h
  /\ (fst (resize N (w, h)) <= w /\ snd (resize N (w, h)) <= h)
  /\ (forall cfg f dirExists firstFrame env w0 w1 format,
        Width f = w -> Height f = h ->
        makeThumbnail cfg f dirExists firstFrame env w0 = (w1, inr format) ->
        exists fp, In (MagickThumbnail fp N format) (execs w1)).
Proof.
  intros Hc Hw Hh N.
  pose proof (thumbnailSize_min w h) as HN. fold N in HN.
  assert (HN0 : 0 < N) by lia.
  specialize (Hc N w h HN0 Hw Hh).
  destruct (resize N (w, h)) as [w' h']. cbn [fst snd].
  destruct Hc as ((Hw' & Hh') & Hasp & Hup).
  split; [exact HN|]. split; [lia|]. split; [exact Hasp|].
  split; [apply Hup; lia|].
  intros cfg f dirExists firstFrame env w0 w1 format <- <- Hmk.
  exact (makeThumbnail_resize _ _ _ _ _ _ _ _ Hmk).
Qed.

Lemma thumbnail_bound_witness :
  thumbnailSize 1000 500 = Z.min 480 (Z.max 1000 500)
  /\ Z.max (fst (nearestFit (thumbnailSize 1000 500) (1000, 500)))
           (snd (nearestFit (thumbnailSize 1000 500) (1000, 500))) <= 480.
Proof.
  destruct (thumbnail_bound nearestFit 1000 500 nearestFit_contract)
    as (H1 & H2 & _); [lia | lia |].
  split; [exact H1 | exact H2].
Defined.

(** ** Reading objects *)

(** Without a thumbnail request [GetObject] asks the primary region for
    the object named by the hash and does nothing else. *)
Lemma GetObject_canonical cfg f env w :
  GetObject cfg f false env w
  = (mkWorld (files w) (blocked_files w) (objects w)
       (GetCall (primaryRegion cfg) (Bucket f) (Hash f) :: s3_calls w)
       (execs w),
     (f, match get_object env with
         | Some e => inl e
         | None => inr (primaryRegion cfg, Bucket f, Hash f)
         end)).
Proof.
  unfold GetObject, wantsThumbnail, s3GetObject. cbn.
  destruct (get_object env); reflexivity.
Qed.

(** C10: for a file outside the "attachments" bucket, or whose MIME type
    is neither image/* nor video/*, [GetObject] with [thumbnail = true]
    does exactly what it does with [thumbnail = false]: it returns the
    canonical object (or that call's error) and generates nothing.  For an
    attachment with an image/* or video/* MIME type the object asked for
    is the hash with the "_thumbnail" suffix, and [GenerateThumbnail] runs
    first exactly when the record has no thumbnail MIME. *)
Theorem GetObject_thumbnail_scope cfg f env w :
  (thumbnailEligible f = false ->
     GetObject cfg f true env w = GetObject cfg f false env w)
  /\ (thumbnailEligible f = true ->
        (String.eqb (ThumbnailMime f) "" = false ->
           GetObject cfg f true env w
           = (let '(w1, obj) :=
                s3GetObject cfg (Bucket f) (thumbnailName (Hash f))
                  (get_object env) w in
              (w1, (f, obj))))
        /\ (String.eqb (ThumbnailMime f) "" = true ->
              GetObject cfg f true env w
              = match GenerateThumbnail cfg f false false (get_thumb env) w
                with
                | (w1, (f1, Some e)) => (w1, (f1, inl e))
                | (w1, (f1, None)) =>
                    let '(w2, obj) :=
                      s3GetObject cfg (Bucket f1) (thumbnailName (Hash f1))
                        (get_object env) w1 in
                    (w2, (f1, obj))
                end)).
Proof.
  unfold thumbnailEligible, GetObject, wantsThumbnail. cbn [andb].
  split.
  - intros ->. reflexivity.
  - intros ->. split; intros ->; [reflexivity|].
    destruct (GenerateThumbnail cfg f false false (get_thumb env) w)
      as [w1 [f1 [e|]]]; reflexivity.
Qed.

Lemma GetObject_thumbnail_scope_witness :
  (* an icon: the request for a thumbnail is ignored *)
  snd (snd (GetObject cfg0 (sampleFile "id1" "h1" "icons" 5 false) true
              (mkGetEnv okThumb None) emptyWorld))
  = inr ("local", "icons", "h1")
  (* an image attachment without a thumbnail yet: one is generated *)
  /\ snd (snd (GetObject cfg0 (sampleFile "id2" "h2" "attachments" 5 false)
                 true (mkGetEnv okThumb None) emptyWorld))
     = inr ("local", "attachments", "h2_thumbnail").
Proof.
  split.
  - rewrite (proj1 (GetObject_thumbnail_scope cfg0
                      (sampleFile "id1" "h1" "icons" 5 false)
                      (mkGetEnv okThumb None) emptyWorld) eq_refl).
    reflexivity.
  - rewrite (proj2 (proj2 (GetObject_thumbnail_scope cfg0
                      (sampleFile "id2" "h2" "attachments" 5 false)
                      (mkGetEnv okThumb None) emptyWorld) eq_refl) eq_refl).
    reflexivity.
Defined.

(** ** The "files" collection *)

Lemma deleteOne_incl id fs g : In g (deleteOne id fs) -> In g fs.
Proof.
  induction fs as [|f fs IH]; cbn; [tauto|].
  destruct (String.eqb (Id f) id); cbn; tauto.
Qed.

Lemma deleteOne_other id fs g :
  In g fs -> Id g <> id -> In g (deleteOne id fs).
Proof.
  induction fs as [|f fs IH]; cbn; [tauto|]. intros [->|Hin] Hne.
  - destruct (String.eqb_spec (Id g) id); [contradiction | now left].
  - destruct (String.eqb (Id f) id); cbn; auto.
Qed.

(** With unique identifiers [DeleteOne] leaves no record of that id. *)
Lemma deleteOne_filter id fs :
  NoDup (map Id fs) ->
  deleteOne id fs = List.filter (fun g => negb (String.eqb (Id g) id)) fs.
Proof.
  induction fs as [|f fs IH]; cbn; [reflexivity|]. intros Hnd.
  inversion Hnd as [|? ? Hnotin Hnd']; subst.
  rewrite list_elem_of_In in Hnotin.
  destruct (String.eqb_spec (Id f) id) as [E|E]; cbn.
  - symmetry. apply forallb_filter_id. apply forallb_forall.
    intros g Hg. destruct (String.eqb_spec (Id g) id) as [E'|]; [|reflexivity].
    exfalso. apply Hnotin. rewrite E, <- E'. now apply in_map.
  - now rewrite IH.
Qed.

Lemma deleteOne_NoDup id fs :
  NoDup (map Id fs) -> NoDup (map Id (deleteOne id fs)).
Proof.
  induction fs as [|f fs IH]; cbn; [auto|]. intros Hnd.
  inversion Hnd as [|? ? Hnotin Hnd']; subst.
  rewrite list_elem_of_In in Hnotin.
  destruct (String.eqb (Id f) id); [assumption|]. cbn.
  constructor; [|auto]. intros Hin. apply Hnotin.
  apply list_elem_of_In in Hin.
  apply in_map_iff in Hin as (g & Hg & Hin). apply in_map_iff.
  exists g. split; [assumption|]. eapply deleteOne_incl; eassumption.
Qed.

Lemma Id_injective fs a b :
  NoDup (map Id fs) -> In a fs -> In b fs -> Id a = Id b -> a = b.
Proof.
  induction fs as [|f fs IH]; cbn; [tauto|]. intros Hnd Ha Hb E.
  inversion Hnd as [|? ? Hnotin Hnd']; subst.
  rewrite list_elem_of_In in Hnotin.
  destruct Ha as [->|Ha], Hb as [->|Hb]; auto.
  - exfalso. apply Hnotin. rewrite E. now apply in_map.
  - exfalso. apply Hnotin. rewrite <- E. now apply in_map.
Qed.

Lemma find_deleteOne (P : File -> bool) id fs :
  (forall g, P g = true -> Id g <> id) ->
  find P (deleteOne id fs) = find P fs.
Proof.
  intros HP. induction fs as [|f fs IH]; cbn; [reflexivity|].
  destruct (String.eqb_spec (Id f) id) as [E|E].
  - destruct (P f) eqn:Pf; [|reflexivity]. now apply HP in Pf.
  - cbn. now rewrite IH.
Qed.

(** ** Delete *)

Lemma removeFromRegion_files f env w region :
  files (removeFromRegion f env w region) = files w.
Proof. reflexivity. Qed.

Lemma removeAll_files f env regions w :
  files (fold_left (removeFromRegion f env) regions w) = files w.
Proof.
  revert w. induction regions as [|r rs IH]; intros w; cbn; [reflexivity|].
  now rewrite IH.
Qed.

(** Removals never bring an object back. *)
Lemma removeAll_absent f env regions w key :
  objects w !! key = None ->
  objects (fold_left (removeFromRegion f env) regions w) !! key = None.
Proof.
  revert w. induction regions as [|r rs IH]; intros w H; cbn; [assumption|].
  apply IH. unfold removeFromRegion, removeObject. cbn.
  repeat match goal with
         | |- context [if ?b then _ else _] => destruct b
         end;
    repeat (rewrite lookup_delete; case_decide); auto.
Qed.

Lemma removeAll_calls f env regions w region :
  In region regions ->
  In (RemoveCall region (Bucket f) (Hash f))
     (s3_calls (fold_left (removeFromRegion f env) regions w))
  /\ In (RemoveCall region (Bucket f) (thumbnailName (Hash f)))
        (s3_calls (fold_left (removeFromRegion f env) regions w)).
Proof.
  assert (Hmono : forall rs w0 c, In c (s3_calls w0) ->
            In c (s3_calls (fold_left (removeFromRegion f env) rs w0))).
  { induction rs as [|r rs IH]; intros w0 c Hc; cbn; [assumption|].
    apply IH. cbn. auto. }
  revert w. induction regions as [|r rs IH]; intros w; cbn; [tauto|].
  intros [->|Hin]; [|now apply IH].
  split; apply Hmono; cbn; auto.
Qed.

Lemma removeAll_removed f env regions w region name :
  In region regions ->
  name = Hash f \/ name = thumbnailName (Hash f) ->
  del_removed env region name = true ->
  objects (fold_left (removeFromRegion f env) regions w)
    !! (region, Bucket f, name) = None.
Proof.
  revert w. induction regions as [|r rs IH]; intros w; cbn; [tauto|].
  intros [->|Hin] Hname Hok; [|now apply IH].
  apply removeAll_absent. unfold removeFromRegion, removeObject. cbn.
  destruct Hname as [->| ->]; rewrite ?Hok.
  - destruct (del_removed env region (thumbnailName (Hash f)));
      repeat (rewrite lookup_delete; case_decide); auto; congruence.
  - rewrite lookup_delete. case_decide; auto; congruence.
Qed.

Lemma Delete_files cfg w f env w' r :
  Delete cfg w f env = (w', r) ->
  files w' = files w \/ files w' = deleteOne (Id f) (files w).
Proof.
  unfold Delete. intros H.
  destruct (del_deleteOne env); [inversion H; auto|].
  destruct (del_count env); [inversion H; auto|].
  destruct (isFileReferenced _ _ _); inversion H; subst; cbn;
    rewrite ?removeAll_files; auto.
Qed.

(** C5: a [Delete] that returns no error has removed the record from the
    collection.  If no record references (hash, bucket) any more, a
    removal of the canonical object and one of its thumbnail were issued
    to every configured region, and each one that succeeded left the
    object absent from its region whatever happened in the others.  If a
    sibling record still references (hash, bucket), the object store is
    not touched and the sibling stays in the collection and is found by
    [GetFile] as before. *)
Theorem Delete_refcount cfg w f env w' :
  uniqueIds w ->
  Delete cfg w f env = (w', None) ->
  files w' = deleteOne (Id f) (files w)
  /\ (forall g, In g (files w') -> Id g <> Id f)
  /\ (isFileReferenced w' (Bucket f) (Hash f) = false ->
      forall region, In region (s3Clients cfg) ->
        In (RemoveCall region (Bucket f) (Hash f)) (s3_calls w')
        /\ In (RemoveCall region (Bucket f) (thumbnailName (Hash f)))
              (s3_calls w')
        /\ (del_removed env region (Hash f) = true ->
            objects w' !! (region, Bucket f, Hash f) = None)
        /\ (del_removed env region (thumbnailName (Hash f)) = true ->
            objects w' !! (region, Bucket f, thumbnailName (Hash f)) = None))
  /\ (forall g, In g (files w) -> Id g <> Id f ->
        sameContent (Hash f) (Bucket f) g = true ->
        objects w' = objects w /\ s3_calls w' = s3_calls w
        /\ In g (files w')
        /\ GetFile w' (Id g) None = GetFile w (Id g) None).
Proof.
  intros Huniq H. unfold Delete in H.
  destruct (del_deleteOne env); [discriminate|].
  destruct (del_count env); [discriminate|].
  set (w1 := with_files (deleteOne (Id f) (files w)) w) in *.
  assert (Hfiles : files w' = deleteOne (Id f) (files w)).
  { destruct (isFileReferenced w1 _ _); inversion H; subst; cbn;
      rewrite ?removeAll_files; reflexivity. }
  split; [exact Hfiles|]. split; [|split].
  - intros g Hg E. rewrite Hfiles, (deleteOne_filter _ _ Huniq) in Hg.
    apply filter_In in Hg as [_ Hg]. rewrite E, String.eqb_refl in Hg.
    cbn in Hg. discriminate.
  - intros Href region Hin.
    assert (Href1 : isFileReferenced w1 (Bucket f) (Hash f) = false).
    { unfold isFileReferenced in *. now rewrite Hfiles in Href. }
    rewrite Href1 in H.
    assert (Hw : w' = fold_left (removeFromRegion f env) (s3Clients cfg) w1)
      by congruence.
    rewrite Hw.
    destruct (removeAll_calls f env (s3Clients cfg) w1 region Hin).
    repeat split; auto; intros Hok; apply removeAll_removed; auto.
  - intros g Hg Hne Hsame.
    assert (Hin : In g (deleteOne (Id f) (files w)))
      by (apply deleteOne_other; auto).
    assert (Href1 : isFileReferenced w1 (Bucket f) (Hash f) = true).
    { unfold isFileReferenced. apply existsb_exists. exists g. auto. }
    rewrite Href1 in H. inversion H; subst. cbn.
    repeat split; auto.
    unfold GetFile. cbn. rewrite find_deleteOne; [reflexivity|].
    intros g' Hg'. apply andb_prop in Hg' as [Hg' _].
    apply String.eqb_eq in Hg'. congruence.
Qed.

Lemma Delete_refcount_witness :
  (* the sole record: the primary region loses both objects although the
     region "eu" refuses *)
  files (fst (Delete cfg0 soleWorld (sampleFile "id1" "h1" "icons" 5 false)
                euDown)) = []
  /\ objects (fst (Delete cfg0 soleWorld
                     (sampleFile "id1" "h1" "icons" 5 false) euDown))
       !! ("local", "icons", "h1") = None
  (* one of two records: nothing is removed *)
  /\ objects (fst (Delete cfg0 sharedWorld
                     (sampleFile "id1" "h1" "icons" 5 false) okDelete))
     = twoRegionObjects.
Proof.
  pose proof (Delete_refcount cfg0 soleWorld
                (sampleFile "id1" "h1" "icons" 5 false) euDown
                (fst (Delete cfg0 soleWorld
                        (sampleFile "id1" "h1" "icons" 5 false) euDown)))
    as H1.
  pose proof (Delete_refcount cfg0 sharedWorld
                (sampleFile "id1" "h1" "icons" 5 false) okDelete
                (fst (Delete cfg0 sharedWorld
                        (sampleFile "id1" "h1" "icons" 5 false) okDelete)))
    as H2.
  destruct H1 as (Hf & _ & Hrm & _);
    [apply (bool_decide_unpack _); vm_compute; reflexivity | reflexivity |].
  destruct H2 as (_ & _ & _ & Hkeep);
    [apply (bool_decide_unpack _); vm_compute; reflexivity | reflexivity |].
  split; [exact Hf|]. split.
  - destruct (Hrm eq_refl "local") as (_ & _ & Hgone & _);
      [cbn; auto | exact (Hgone eq_refl)].
  - destruct (Hkeep (sampleFile "id2" "h1" "icons" 7 true)) as (Ho & _);
      [cbn; auto | discriminate | reflexivity | exact Ho].
Defined.

(** ** The garbage-collection sweep *)

Lemma wrap64_small (z : Z) : in_int64 z -> wrap64 z = z.
Proof.
  unfold in_int64, wrap64. intros H. rewrite Z.mod_small; lia.
Qed.

Lemma expired_age (now : Z) (f : File) :
  in_int64 (now - 1800) ->
  expired now f = true <-> Claimed f = false /\ now - UploadedAt f > 1800.
Proof.
  intros Hnow. unfold expired. rewrite (wrap64_small _ Hnow).
  rewrite andb_true_iff, negb_true_iff, Z.ltb_lt. intuition lia.
Qed.

Lemma Delete_ok_files cfg w f env w' :
  Delete cfg w f env = (w', None) ->
  files w' = deleteOne (Id f) (files w).
Proof.
  unfold Delete. intros H.
  destruct (del_deleteOne env); [discriminate|].
  destruct (del_count env); [discriminate|].
  destruct (isFileReferenced _ _ _); inversion H; subst; cbn;
    rewrite ?removeAll_files; reflexivity.
Qed.

Lemma Delete_succeeds cfg w f env :
  del_deleteOne env = None -> del_count env = None ->
  snd (Delete cfg w f env) = None.
Proof.
  unfold Delete. intros -> ->. destruct (isFileReferenced _ _ _); reflexivity.
Qed.

Lemma deleteEach_files cfg env targets :
  forall w w' r,
    deleteEach cfg w targets env = (w', r) ->
    (forall g, In g (files w') -> In g (files w))
    /\ (forall g, In g (files w) ->
          (forall t, In t targets -> Id t <> Id g) -> In g (files w'))
    /\ (r = None -> files w' = deleteIds targets (files w)).
Proof.
  induction targets as [|t ts IH]; intros w w' r H; cbn in H.
  - inversion H; subst. repeat split; auto.
  - destruct (Delete cfg w t (env (Id t))) as [w1 [e|]] eqn:HD.
    + inversion H; subst.
      destruct (Delete_files _ _ _ _ _ _ HD) as [E|E]; rewrite E.
      * repeat split; auto; discriminate.
      * repeat split; try discriminate.
        -- intros g. apply deleteOne_incl.
        -- intros g Hg Hne. apply deleteOne_other; auto.
           intros E'. apply (Hne t); cbn; auto.
    + pose proof (Delete_ok_files _ _ _ _ _ HD) as E.
      destruct (IH _ _ _ H) as (I1 & I2 & I3). rewrite E in *.
      repeat split.
      * intros g Hg. eapply deleteOne_incl; eauto.
      * intros g Hg Hne. apply I2.
        -- apply deleteOne_other; auto. intros E'. apply (Hne t); cbn; auto.
        -- intros t' Ht'. apply Hne. cbn; auto.
      * intros Hr. cbn. now apply I3.
Qed.

Lemma deleteEach_succeeds cfg env targets :
  (forall id, del_deleteOne (env id) = None /\ del_count (env id) = None) ->
  forall w, snd (deleteEach cfg w targets env) = None.
Proof.
  intros Hok. induction targets as [|t ts IH]; intros w; cbn; [reflexivity|].
  destruct (Hok (Id t)) as [H1 H2].
  pose proof (Delete_succeeds cfg w t (env (Id t)) H1 H2) as Hs.
  destruct (Delete cfg w t (env (Id t))) as [w1 [e|]]; [discriminate|].
  apply IH.
Qed.

Lemma filter_twice {A} (p q : A -> bool) (l : list A) :
  List.filter q (List.filter p l) = List.filter (fun x => p x && q x) l.
Proof.
  induction l as [|x l IH]; cbn; [reflexivity|].
  destruct (p x); cbn; [destruct (q x)|]; now rewrite IH.
Qed.

Lemma deleteIds_filter targets :
  forall fs, NoDup (map Id fs) ->
    deleteIds targets fs = List.filter (fun g => negb (targeted targets g)) fs.
Proof.
  induction targets as [|t ts IH]; intros fs Hnd; cbn.
  - symmetry. apply forallb_filter_id. apply forallb_forall. auto.
  - unfold deleteIds in *. rewrite IH by now apply deleteOne_NoDup.
    rewrite (deleteOne_filter _ _ Hnd), filter_twice.
    apply filter_ext. intros g. rewrite negb_orb.
    now rewrite (String.eqb_sym (Id g) (Id t)).
Qed.

Lemma targeted_filter (p : File -> bool) fs g :
  NoDup (map Id fs) -> In g fs -> targeted (List.filter p fs) g = p g.
Proof.
  intros Hnd Hg. unfold targeted. destruct (p g) eqn:Pg.
  - apply existsb_exists. exists g. split; [now apply filter_In|].
    apply String.eqb_refl.
  - apply not_true_is_false. intros H.
    apply existsb_exists in H as (t & Ht & E).
    apply filter_In in Ht as [Ht Pt]. apply String.eqb_eq in E.
    assert (t = g) by (eapply Id_injective; eauto). congruence.
Qed.

(** C6: with unique identifiers, a sweep never deletes a claimed record
    and deletes nothing but unclaimed records older than 1800 seconds,
    even when it stops on an error; a sweep that returns no error has
    deleted exactly the unclaimed records whose age exceeds 1800 seconds;
    and the sweep returns no error when no database call fails. *)
Theorem cleanupFiles_sweep cfg w env w' r :
  uniqueIds w ->
  in_int64 (gc_now env - 1800) ->
  cleanupFiles cfg w env = (w', r) ->
  (forall f, In f (files w) -> Claimed f = true -> In f (files w'))
  /\ (forall f, In f (files w) -> ~ In f (files w') ->
        Claimed f = false /\ gc_now env - UploadedAt f > 1800)
  /\ (r = None ->
      files w' = List.filter (fun f => negb (expired (gc_now env) f)) (files w)
      /\ forall f, In f (files w') <->
           In f (files w)
           /\ ~ (Claimed f = false /\ gc_now env - UploadedAt f > 1800))
  /\ (gc_find env = None -> gc_all env = None ->
      (forall id, del_deleteOne (gc_delete env id) = None
                  /\ del_count (gc_delete env id) = None) ->
      r = None).
Proof.
  intros Huniq Hnow H. unfold cleanupFiles in H.
  set (now := gc_now env) in *.
  assert (Hkeep : forall f, In f (files w) -> expired now f = false ->
            forall t, In t (List.filter (expired now) (files w)) ->
                      Id t <> Id f).
  { intros f Hf Hex t Ht E. apply filter_In in Ht as [Ht Hext].
    assert (t = f) by (eapply Id_injective; eauto). congruence. }
  destruct (gc_find env) as [e|] eqn:Hfind.
  { inversion H; subst. repeat split; auto; try discriminate; tauto. }
  destruct (gc_all env) as [e|] eqn:Hall.
  { inversion H; subst. repeat split; auto; try discriminate; tauto. }
  destruct (deleteEach_files _ _ _ _ _ _ H) as (I1 & I2 & I3).
  split; [|split; [|split]].
  - intros f Hf Hc. apply I2; [assumption|]. apply Hkeep; [assumption|].
    unfold expired. now rewrite Hc.
  - intros f Hf Hgone. apply expired_age; [assumption|].
    destruct (expired now f) eqn:Hex; [reflexivity|].
    exfalso. apply Hgone. apply I2; auto.
  - intros Hr. specialize (I3 Hr).
    assert (Hfl : files w'
                  = List.filter (fun f => negb (expired now f)) (files w)).
    { rewrite I3, (deleteIds_filter _ _ Huniq). apply filter_ext_in.
      intros g Hg. now rewrite (targeted_filter _ _ _ Huniq Hg). }
    split; [exact Hfl|]. intros f. rewrite Hfl, filter_In.
    rewrite <- (expired_age now f Hnow).
    destruct (expired now f); cbn; intuition congruence.
  - intros _ _ Hok.
    pose proof (deleteEach_succeeds cfg (gc_delete env)
                  (List.filter (expired now) (files w)) Hok w) as Hs.
    rewrite H in Hs. exact Hs.
Qed.

Lemma cleanupFiles_sweep_witness :
  files (fst (cleanupFiles cfg0 gcWorld (okCleanup 10000)))
  = [sampleFile "id2" "h2" "icons" 5 true;
     sampleFile "id3" "h3" "icons" 9000 false].
Proof.
  destruct (cleanupFiles_sweep cfg0 gcWorld (okCleanup 10000)
              (fst (cleanupFiles cfg0 gcWorld (okCleanup 10000)))
              (snd (cleanupFiles cfg0 gcWorld (okCleanup 10000))))
    as (_ & _ & Hexact & _).
  - apply (bool_decide_unpack _). vm_compute. reflexivity.
  - unfold in_int64. cbn. lia.
  - reflexivity.
  - destruct (Hexact eq_refl) as [Hfl _]. rewrite Hfl. reflexivity.
Defined.

(** ** Ingestion *)

Lemma hashed_files u env w : files (hashed u env w) = files w.
Proof.
  unfold hashed.
  destruct (negb _); [destruct (HasPrefix _ _)|]; reflexivity.
Qed.

Lemma hashed_objects u env w : objects (hashed u env w) = objects w.
Proof.
  unfold hashed.
  destruct (negb _); [destruct (HasPrefix _ _)|]; reflexivity.
Qed.

Lemma hashed_s3_calls u env w : s3_calls (hashed u env w) = s3_calls w.
Proof.
  unfold hashed.
  destruct (negb _); [destruct (HasPrefix _ _)|]; reflexivity.
Qed.

(** Up to the dedup lookup the function only saves and hashes the upload. *)
Lemma prepareFile_lookup cfg env bucket filename uploader w id hashHex :
  reachesLookup w env id hashHex ->
  prepareFile cfg env bucket filename uploader w
  = let f := match findOne hashHex bucket (files w) with
             | Some r => r
             | None => zeroFile
             end in
    if String.eqb (Hash f) hashHex
    then (hashed uploader env w,
          inr (reuseRecord env filename uploader id f))
    else ingestNew cfg env bucket filename uploader id hashHex
           (hashed uploader env w).
Proof.
  intros (Hid & Hmk & Hcr & Hcp & Hsha & _ & Hbs & Hnb & Hfo).
  unfold prepareFile, hashed, getBlockStatus in *.
  rewrite Hid, Hmk, Hcr, Hcp, Hsha, Hbs, Hfo.
  unfold bind, result, check, run, ret, fail.
  destruct (negb (Z.land (Flags uploader) FlagUltraHDUploads =? 0));
    [destruct (HasPrefix (env_ultra_mime env) "image/")|];
    cbn [exec files blocked_files]; rewrite Hnb; cbv zeta;
    destruct (String.eqb _ hashHex); reflexivity.
Qed.

Lemma prepareFile_new cfg env bucket filename uploader w id hashHex :
  newContent w env bucket id hashHex ->
  prepareFile cfg env bucket filename uploader w
  = ingestNew cfg env bucket filename uploader id hashHex
      (hashed uploader env w).
Proof.
  intros [Hr Hnone]. rewrite (prepareFile_lookup _ _ _ _ _ _ _ _ Hr), Hnone.
  destruct Hr as (_ & _ & _ & _ & _ & Hne & _). cbn.
  destruct hashHex; [discriminate | reflexivity].
Qed.

Lemma findOne_sound hashHex bucket fs r :
  findOne hashHex bucket fs = Some r ->
  In r fs /\ Hash r = hashHex /\ Bucket r = bucket.
Proof.
  intros H. apply find_some in H as [Hin H]. unfold sameContent in H.
  apply andb_prop in H as [H1 H2].
  apply String.eqb_eq in H1, H2. auto.
Qed.

Lemma prepareFile_reuse cfg env bucket filename uploader w id hashHex r :
  reachesLookup w env id hashHex ->
  findOne hashHex bucket (files w) = Some r ->
  prepareFile cfg env bucket filename uploader w
  = (hashed uploader env w, inr (reuseRecord env filename uploader id r)).
Proof.
  intros Hr Hfound. rewrite (prepareFile_lookup _ _ _ _ _ _ _ _ Hr), Hfound.
  cbv zeta. destruct (findOne_sound _ _ _ _ Hfound) as (_ & E & _).
  now rewrite E, String.eqb_refl.
Qed.

Lemma insertOne_free f fs :
  existsb (fun g => String.eqb (Id g) (Id f)) fs = false ->
  insertOne f fs = inr (fs ++ [f])%list.
Proof. unfold insertOne. now intros ->. Qed.

(** An image that is new to an icon, emoji or sticker bucket, when the
    probes, the re-encode and the insertion succeed: what is stored and
    what is returned, whatever the canonical upload does. *)
Lemma ingestSquare_run cfg w bucket filename uploader env id hashHex
      mime dims frames :
  isImageBucket bucket = true ->
  newContent w env bucket id hashHex ->
  env_mime env = inr mime -> HasPrefix mime "image/" = true ->
  env_identify env = inr dims -> env_frames env = inr frames ->
  env_convert env = None ->
  env_insertOne env = None -> idFree id w = true ->
  let format := chooseFormat frames in
  let f := mkFile id hashHex bucket ("image/" ++ format)%string ""
             (size_of (env_upload env)) (cleanFilename filename)
             (fst (env_reprobe env)) (snd (env_reprobe env))
             (primaryRegion cfg) (Username uploader) (env_now env) false in
  let w1 :=
    exec (MagickIdentifyDims ("." ++ format)%string)
      (putObject cfg bucket hashHex ("." ++ format)%string
         ("image/" ++ format)%string (env_upload env)
         (exec (MagickReencode (squareSize bucket (fst dims) (snd dims))
                  format)
            (exec MagickIdentifyFrames
               (exec (MagickIdentifyDims "original")
                  (exec FileMimeType (hashed uploader env w)))))) in
  IngestMultipartFile cfg w bucket filename uploader env
  = (with_files (files w ++ [f])%list w1, (Some f, None)).
Proof.
  intros Hb Hnew Hmime Himg Hdims Hfr Hconv Hins Hfree format f w1.
  unfold IngestMultipartFile.
  rewrite (prepareFile_new _ _ _ _ _ _ _ _ Hnew).
  unfold ingestNew. rewrite Hmime, Hb.
  unfold bind at 1. unfold run at 1. unfold bind at 1. unfold result at 1.
  unfold ret at 1. cbv beta iota zeta.
  replace (Mime (set_Mime mime _)) with mime by reflexivity.
  rewrite Himg, Hdims.
  unfold bind at 1. unfold bind at 1. unfold run at 1. unfold bind at 1.
  unfold result at 1. unfold ret at 1. unfold ret at 1. cbv beta iota zeta.
  unfold ingestSquare.
  replace (Mime (set_dims dims _)) with mime by reflexivity.
  rewrite Himg, Hfr, Hconv. cbn [negb].
  unfold bind, run, result, check, modify, ret. cbv beta iota zeta.
  rewrite Hins.
  unfold idFree in Hfree. apply negb_true_iff in Hfree.
  rewrite insertOne_free.
  - cbn [files putObject exec]. rewrite hashed_files. reflexivity.
  - cbn [files putObject exec Id set_dims set_Size set_Mime].
    rewrite hashed_files. exact Hfree.
Qed.

(** C7: an upload that is new to an icon, emoji or sticker bucket and
    whose detected MIME type does not start with "image/" fails with
    [ErrUnsupportedFile]; no call reaches the object store and no record
    is inserted. *)
Theorem ingest_non_image_unsupported cfg w bucket filename uploader env
        id hashHex mime :
  isImageBucket bucket = true ->
  newContent w env bucket id hashHex ->
  env_mime env = inr mime ->
  HasPrefix mime "image/" = false ->
  snd (IngestMultipartFile cfg w bucket filename uploader env)
  = (None, Some ErrUnsupportedFile)
  /\ s3_calls (fst (IngestMultipartFile cfg w bucket filename uploader env))
     = s3_calls w
  /\ objects (fst (IngestMultipartFile cfg w bucket filename uploader env))
     = objects w
  /\ files (fst (IngestMultipartFile cfg w bucket filename uploader env))
     = files w.
Proof.
  intros Hb Hnew Hmime Himg.
  assert (Hrun : IngestMultipartFile cfg w bucket filename uploader env
                 = (exec FileMimeType (hashed uploader env w),
                    (None, Some ErrUnsupportedFile))).
  { unfold IngestMultipartFile.
    rewrite (prepareFile_new _ _ _ _ _ _ _ _ Hnew).
    unfold ingestNew. rewrite Hmime, Hb.
    unfold bind at 1. unfold run at 1. unfold bind at 1. unfold result at 1.
    unfold ret at 1. cbv beta iota zeta.
    replace (Mime (set_Mime mime _)) with mime by reflexivity.
    rewrite Himg. unfold bind at 1. unfold ret at 1. cbv beta iota zeta.
    unfold ingestSquare.
    replace (Mime (set_Mime mime _)) with mime by reflexivity.
    rewrite Himg. reflexivity. }
  rewrite Hrun. cbn [fst snd exec s3_calls objects files].
  rewrite hashed_s3_calls, hashed_objects, hashed_files. auto.
Qed.

Lemma ingest_non_image_unsupported_witness :
  snd (IngestMultipartFile cfg0 emptyWorld "emojis" catPng alice
         (sampleEnv "id1" "h1" "application/pdf" (0, 0) "" (inr 77)
            LandsEarly 1000))
  = (None, Some ErrUnsupportedFile)
  /\ s3_calls (fst (IngestMultipartFile cfg0 emptyWorld "emojis" catPng alice
                      (sampleEnv "id1" "h1" "application/pdf" (0, 0) ""
                         (inr 77) LandsEarly 1000)))
     = [].
Proof.
  destruct (ingest_non_image_unsupported cfg0 emptyWorld "emojis" catPng
              alice
              (sampleEnv "id1" "h1" "application/pdf" (0, 0) "" (inr 77)
                 LandsEarly 1000)
              "id1" "h1" "application/pdf")
    as (H1 & H2 & _).
  - reflexivity.
  - repeat split; reflexivity.
  - reflexivity.
  - reflexivity.
  - split; [exact H1 | exact H2].
Defined.

(** C8: an image with [n] frames that is new to an icon, emoji or sticker
    bucket, where the frame probe prints "1" exactly for one frame: the
    record, the re-encoded file and the stored object are image/webp when
    [n = 1] and image/gif when [n > 1]. *)
Theorem ingest_square_format cfg w bucket filename uploader env id hashHex
        mime dims frames size (n : Z) :
  isImageBucket bucket = true ->
  newContent w env bucket id hashHex ->
  env_mime env = inr mime -> HasPrefix mime "image/" = true ->
  env_identify env = inr dims -> env_frames env = inr frames ->
  env_convert env = None -> env_upload env = inr size ->
  env_insertOne env = None -> idFree id w = true ->
  1 <= n -> (frames = "1" <-> n = 1) ->
  let format := if n =? 1 then "webp" else "gif" in
  exists w' f,
    IngestMultipartFile cfg w bucket filename uploader env
    = (w', (Some f, None))
    /\ In f (files w')
    /\ Mime f = ("image/" ++ format)%string
    /\ objects w' !! (primaryRegion cfg, bucket, hashHex)
       = Some (mkObject ("." ++ format) ("image/" ++ format))%string
    /\ In (MagickReencode (squareSize bucket (fst dims) (snd dims)) format)
          (execs w').
Proof.
  intros Hb Hnew Hmime Himg Hdims Hfr Hconv Hup Hins Hfree Hn Hone format.
  pose proof (ingestSquare_run cfg w bucket filename uploader env id hashHex
                mime dims frames Hb Hnew Hmime Himg Hdims Hfr Hconv Hins
                Hfree) as Hrun.
  cbv zeta in Hrun.
  assert (Hfmt : chooseFormat frames = format).
  { unfold chooseFormat, format.
    destruct (String.eqb_spec frames "1") as [E|E];
      destruct (Z.eqb_spec n 1) as [E'|E']; tauto. }
  rewrite Hfmt, Hup in Hrun.
  eexists _, _. split; [exact Hrun|].
  cbn [files with_files Mime objects putObject exec execs].
  split; [apply in_or_app; right; left; reflexivity|].
  split; [reflexivity|].
  split; [apply lookup_insert_eq|].
  right. left. reflexivity.
Qed.

Lemma ingest_square_format_witness :
  (* ten frames into "emojis" *)
  (exists w' f,
     IngestMultipartFile cfg0 emptyWorld "emojis" catPng alice
       (sampleEnv "id1" "h1" "image/gif" (64, 64) "10101010101010101010"
          (inr 77) LandsEarly 1000)
     = (w', (Some f, None)) /\ Mime f = "image/gif")
  (* one frame into "emojis" *)
  /\ (exists w' f,
        IngestMultipartFile cfg0 emptyWorld "emojis" catPng alice
          (sampleEnv "id1" "h1" "image/png" (64, 64) "1" (inr 77)
             LandsEarly 1000)
        = (w', (Some f, None)) /\ Mime f = "image/webp").
Proof.
  split.
  - destruct (ingest_square_format cfg0 emptyWorld "emojis" catPng alice
                (sampleEnv "id1" "h1" "image/gif" (64, 64)
                   "10101010101010101010" (inr 77) LandsEarly 1000)
                "id1" "h1" "image/gif" (64, 64) "10101010101010101010" 77 10)
      as (w' & f & H & _ & Hm & _);
      try reflexivity; try lia.
    + repeat split; reflexivity.
    + split; [discriminate | lia].
    + exists w', f. split; [exact H | exact Hm].
  - destruct (ingest_square_format cfg0 emptyWorld "emojis" catPng alice
                (sampleEnv "id1" "h1" "image/png" (64, 64) "1" (inr 77)
                   LandsEarly 1000)
                "id1" "h1" "image/png" (64, 64) "1" 77 1)
      as (w' & f & H & _ & Hm & _);
      try reflexivity; try lia.
    + repeat split; reflexivity.
    + split; reflexivity.
    + exists w', f. split; [exact H | exact Hm].
Defined.

(** The dedup fast path, when the insertion succeeds. *)
Lemma ingest_reuse_run cfg w bucket filename uploader env id hashHex r :
  reachesLookup w env id hashHex ->
  findOne hashHex bucket (files w) = Some r ->
  env_insertOne env = None -> idFree id w = true ->
  IngestMultipartFile cfg w bucket filename uploader env
  = (with_files (files w ++ [reuseRecord env filename uploader id r])%list
       (hashed uploader env w),
     (Some (reuseRecord env filename uploader id r), None)).
Proof.
  intros Hr Hfound Hins Hfree. unfold IngestMultipartFile.
  rewrite (prepareFile_reuse _ _ _ _ _ _ _ _ _ Hr Hfound), Hins.
  unfold idFree in Hfree. apply negb_true_iff in Hfree.
  rewrite insertOne_free; rewrite hashed_files; [reflexivity | exact Hfree].
Qed.

(** C1 fails in the icon, emoji and sticker buckets: when the canonical
    upload fails there, its error is assigned to [err] and never read
    again; the record is inserted (with size 0) and returned with a nil
    error, although the object is not in the store. *)
Theorem ingest_square_upload_error_dropped cfg w bucket filename uploader
        env id hashHex mime dims frames e :
  isImageBucket bucket = true ->
  newContent w env bucket id hashHex ->
  env_mime env = inr mime -> HasPrefix mime "image/" = true ->
  env_identify env = inr dims -> env_frames env = inr frames ->
  env_convert env = None ->
  env_insertOne env = None -> idFree id w = true ->
  env_upload env = inl e ->
  exists w' f,
    IngestMultipartFile cfg w bucket filename uploader env
    = (w', (Some f, None))
    /\ In f (files w') /\ Size f = 0
    /\ In (PutCall (primaryRegion cfg) bucket hashHex) (s3_calls w')
    /\ objects w' = objects w.
Proof.
  intros Hb Hnew Hmime Himg Hdims Hfr Hconv Hins Hfree Hup.
  pose proof (ingestSquare_run cfg w bucket filename uploader env id hashHex
                mime dims frames Hb Hnew Hmime Himg Hdims Hfr Hconv Hins
                Hfree) as Hrun.
  cbv zeta in Hrun. rewrite Hup in Hrun.
  eexists _, _. split; [exact Hrun|].
  cbn [files with_files Size size_of objects s3_calls putObject exec].
  split; [apply in_or_app; right; left; reflexivity|].
  split; [reflexivity|]. split; [left; reflexivity|].
  apply hashed_objects.
Qed.

Lemma ingest_square_upload_error_dropped_witness :
  exists w' f,
    IngestMultipartFile cfg0 emptyWorld "icons" catPng alice
      (sampleEnv "id1" "h1" "image/png" (100, 50) "1" putFails LandsLast
         1000)
    = (w', (Some f, None))
    /\ In f (files w') /\ objects w' = ∅.
Proof.
  destruct (ingest_square_upload_error_dropped cfg0 emptyWorld "icons"
              catPng alice
              (sampleEnv "id1" "h1" "image/png" (100, 50) "1" putFails
                 LandsLast 1000)
              "id1" "h1" "image/png" (100, 50) "1" (ErrIO "put"))
    as (w' & f & H & Hin & _ & _ & Hobj);
    try reflexivity.
  - repeat split; reflexivity.
  - exists w', f. split; [exact H|]. split; [exact Hin | exact Hobj].
Defined.

(** The attachment branches do read [err] after the join, but both
    goroutines assign it: a failed upload is reported only if its
    assignment lands last. *)
Example ingest_attachment_upload_error_last :
  IngestMultipartFile cfg0 emptyWorld "attachments" catPng alice
    (sampleEnv "id1" "h1" "image/png" (100, 50) "1" putFails LandsLast 1000)
  = (fst (IngestMultipartFile cfg0 emptyWorld "attachments" catPng alice
            (sampleEnv "id1" "h1" "image/png" (100, 50) "1" putFails
               LandsLast 1000)),
     (None, Some (ErrIO "put")))
  /\ files (fst (IngestMultipartFile cfg0 emptyWorld "attachments" catPng
                   alice
                   (sampleEnv "id1" "h1" "image/png" (100, 50) "1" putFails
                      LandsLast 1000)))
     = [].
Proof. split; reflexivity. Qed.

Example ingest_attachment_upload_error_overwritten :
  snd (snd (IngestMultipartFile cfg0 emptyWorld "attachments" catPng alice
              (sampleEnv "id1" "h1" "image/png" (100, 50) "1" putFails
                 LandsEarly 1000)))
  = None
  /\ length (files (fst (IngestMultipartFile cfg0 emptyWorld "attachments"
                           catPng alice
                           (sampleEnv "id1" "h1" "image/png" (100, 50) "1"
                              putFails LandsEarly 1000))))
     = 1%nat.
Proof. split; reflexivity. Qed.

(** C3 fails on the dedup fast path: the new record is the decoded one
    with four fields replaced, and [Claimed] is not among them, so a
    duplicate of claimed content is born claimed. *)
Theorem ingest_reuse_inherits_claimed cfg w bucket filename uploader env
        id hashHex r :
  reachesLookup w env id hashHex ->
  findOne hashHex bucket (files w) = Some r ->
  env_insertOne env = None -> idFree id w = true ->
  Claimed r = true ->
  exists w' f,
    IngestMultipartFile cfg w bucket filename uploader env
    = (w', (Some f, None))
    /\ In f (files w') /\ Id f = id /\ UploadedBy f = Username uploader
    /\ Claimed f = true.
Proof.
  intros Hr Hfound Hins Hfree Hcl.
  eexists _, _. split; [exact (ingest_reuse_run _ _ _ _ _ _ _ _ _ Hr Hfound
                                 Hins Hfree)|].
  cbn [files with_files reuseRecord Id UploadedBy Claimed].
  split; [apply in_or_app; right; left; reflexivity|]. auto.
Qed.

Lemma ingest_reuse_inherits_claimed_witness :
  exists w' f,
    IngestMultipartFile cfg0 claimedWorld "icons" catPng bob
      (sampleEnv "id9" "h1" "image/png" (64, 64) "1" (inr 77) LandsEarly
         5000)
    = (w', (Some f, None))
    /\ Id f = "id9" /\ UploadedBy f = "bob" /\ Claimed f = true.
Proof.
  destruct (ingest_reuse_inherits_claimed cfg0 claimedWorld "icons" catPng
              bob
              (sampleEnv "id9" "h1" "image/png" (64, 64) "1" (inr 77)
                 LandsEarly 5000)
              "id9" "h1" (sampleFile "id2" "h1" "icons" 7 true))
    as (w' & f & H & _ & Hid & Hby & Hcl);
    try reflexivity.
  - repeat split; reflexivity.
  - exists w', f. auto.
Defined.

(** ** Counting canonical writes *)

Lemma thumbnailName_neq (hashHex : string) : thumbnailName hashHex <> hashHex.
Proof.
  unfold thumbnailName. induction hashHex as [|a s IH]; cbn.
  - discriminate.
  - intros E. injection E as E. contradiction.
Qed.


Lemma canonicalWrites_put_thumbnail cfg bucket hashHex source ct outcome w :
  canonicalWrites cfg bucket hashHex
    (putObject cfg bucket (thumbnailName hashHex) source ct outcome w)
  = canonicalWrites cfg bucket hashHex w.
Proof.
  unfold canonicalWrites, putObject. cbn [s3_calls].
  rewrite count_occ_cons_neq; [reflexivity|].
  intros E. injection E as E. now apply thumbnailName_neq in E.
Qed.








(** ** Deduplication *)

Lemma ingest_ok_inserted cfg w bucket filename uploader env w' f :
  IngestMultipartFile cfg w bucket filename uploader env
  = (w', (Some f, None)) ->
  exists w1,
    prepareFile cfg env bucket filename uploader w = (w1, inr f)
    /\ files w' = (files w1 ++ [f])%list
    /\ s3_calls w' = s3_calls w1 /\ objects w' = objects w1
    /\ (forall g, In g (files w1) -> Id g <> Id f).
Proof.
  unfold IngestMultipartFile. intros H.
  destruct (prepareFile cfg env bucket filename uploader w) as [w1 [e|f0]];
    [discriminate|].
  destruct (env_insertOne env); [discriminate|].
  unfold insertOne in H.
  destruct (existsb _ (files w1)) eqn:Hex; [discriminate|].
  inversion H; subst; clear H. exists w1. repeat split; try reflexivity.
  intros g Hg E.
  assert (existsb (fun g => String.eqb (Id g) (Id f)) (files w1) = true).
  { apply existsb_exists. exists g. split; [assumption|].
    now apply String.eqb_eq. }
  congruence.
Qed.




(** * Further properties of the code *)

(** ** cleanFilename *)

Lemma allowedRune_small (r : rune) : allowedRune r = true -> (r < 256)%N.
Proof.
  unfold allowedRune. intros H.
  repeat (apply orb_prop in H as [H|H]);
    repeat match goal with
           | H : (_ && _) = true |- _ => apply andb_prop in H as [? ?]
           | H : (_ <=? _)%N = true |- _ => apply N.leb_le in H
           | H : (_ =? _)%N = true |- _ => apply N.eqb_eq in H
           end; lia.
Qed.

Lemma cleanFilename_cons (r : rune) (rest : list rune) :
  cleanFilename (r :: rest)
  = String (if allowedRune r then ascii_of_N r else "_"%char)
           (cleanFilename rest).
Proof. reflexivity. Qed.

(** X1: the cleaned name has one character per code point of the given
    name, every character is a letter, a digit or one of . - _ + ! ( ) $,
    and so it holds no path separator, space or control character. *)
Theorem cleanFilename_shape (filename : list rune) :
  String.length (cleanFilename filename) = length filename
  /\ Forall (fun c => allowedRune (N_of_ascii c) = true)
            (chars (cleanFilename filename))
  /\ ~ In "/"%char (chars (cleanFilename filename))
  /\ ~ In " "%char (chars (cleanFilename filename))
  /\ ~ In "\"%char (chars (cleanFilename filename)).
Proof.
  assert (Hall : Forall (fun c => allowedRune (N_of_ascii c) = true)
                        (chars (cleanFilename filename))).
  { induction filename as [|r rest IH]; [constructor|].
    rewrite cleanFilename_cons. cbn [chars]. constructor; [|exact IH].
    destruct (allowedRune r) eqn:Hr; [|reflexivity].
    rewrite N_ascii_embedding by (apply allowedRune_small; exact Hr).
    exact Hr. }
  split; [|split; [exact Hall|]].
  - clear Hall. induction filename as [|r rest IH]; [reflexivity|].
    rewrite cleanFilename_cons.
    change (S (String.length (cleanFilename rest)) = S (length rest)).
    f_equal. exact IH.
  - rewrite Forall_forall in Hall.
    repeat split; intros Hin; apply list_elem_of_In, Hall in Hin;
      discriminate.
Qed.

(** X2: cleaning is idempotent, and a name already made of allowed
    characters comes back unchanged. *)
Theorem cleanFilename_idempotent (filename : list rune) :
  cleanFilename (runes (cleanFilename filename)) = cleanFilename filename
  /\ (forallb allowedRune filename = true ->
      runes (cleanFilename filename) = filename).
Proof.
  split.
  - induction filename as [|r rest IH]; [reflexivity|].
    rewrite cleanFilename_cons. unfold runes in *. cbn [chars map].
    rewrite cleanFilename_cons, IH. f_equal.
    destruct (allowedRune r) eqn:Hr.
    + rewrite N_ascii_embedding by (apply allowedRune_small; exact Hr).
      now rewrite Hr.
    + reflexivity.
  - induction filename as [|r rest IH]; [reflexivity|].
    cbn [forallb]. intros H. apply andb_prop in H as [Hr Hrest].
    rewrite cleanFilename_cons, Hr. unfold runes in *. cbn [chars map].
    rewrite IH by assumption.
    now rewrite N_ascii_embedding by (apply allowedRune_small; exact Hr).
Qed.

Lemma cleanFilename_idempotent_witness :
  runes (cleanFilename catPng) = catPng.
Proof.
  apply (proj2 (cleanFilename_idempotent catPng)). reflexivity.
Defined.

(** ** generateId *)

Lemma ReplaceAll_thrice (s : string) :
  ReplaceAll (ReplaceAll (ReplaceAll s "-" "a") "_" "b") "=" "c"
  = mapChars idChar s.
Proof.
  induction s as [|c rest IH]; [reflexivity|].
  cbn [ReplaceAll mapChars]. now rewrite IH.
Qed.

Lemma sextet_idChar (n : N) : alnum (idChar (sextet n)) = true.
Proof.
  destruct (N.ltb_spec n 64) as [Hlt|Hge].
  - assert (Hall : forallb (fun k => alnum (idChar (sextet (N.of_nat k))))
                     (seq 0 64) = true) by (vm_compute; reflexivity).
    rewrite forallb_forall in Hall.
    specialize (Hall (N.to_nat n)). rewrite N2Nat.id in Hall.
    apply Hall. apply in_seq. lia.
  - unfold sextet.
    assert (Hnone : String.get (N.to_nat n) urlAlphabet = None).
    { assert (Hlen : (String.length urlAlphabet <= N.to_nat n)%nat)
        by (cbn; lia).
      revert Hlen. generalize urlAlphabet (N.to_nat n).
      induction s as [|c s IH]; intros k Hk; [destruct k; reflexivity|].
      destruct k as [|k]; cbn in *; [lia|]. apply IH. lia. }
    now rewrite Hnone.
Qed.

Lemma EncodeToString_shape (b : list Byte.byte) :
  String.length (EncodeToString b) = (4 * ((length b + 2) / 3))%nat
  /\ Forall (fun c => alnum (idChar c) = true) (chars (EncodeToString b)).
Proof.
  assert (H3 : forall n (l : list Byte.byte), (length l < n)%nat ->
            String.length (EncodeToString l)
            = (4 * ((length l + 2) / 3))%nat
            /\ Forall (fun c => alnum (idChar c) = true)
                      (chars (EncodeToString l))).
  { induction n as [|n IH]; intros l Hl; [lia|].
    destruct l as [|x [|y [|z rest]]].
    - split; [reflexivity | constructor].
    - split; [reflexivity|]. cbn [EncodeToString chars].
      repeat constructor; apply sextet_idChar.
    - split; [reflexivity|]. cbn [EncodeToString chars].
      repeat constructor; apply sextet_idChar.
    - destruct (IH rest) as [IHl IHc]; [cbn in Hl; lia|].
      split.
      + change (S (S (S (S (String.length (EncodeToString rest)))))
                = (4 * ((S (S (S (length rest))) + 2) / 3))%nat).
        rewrite IHl.
        replace (S (S (S (length rest))) + 2)%nat
          with (1 * 3 + (length rest + 2))%nat by lia.
        rewrite Nat.div_add_l by lia. lia.
      + cbn [EncodeToString chars].
        repeat (constructor; [apply sextet_idChar|]). exact IHc. }
  apply (H3 (S (length b))). lia.
Qed.

Lemma chars_mapChars (g : ascii -> ascii) (s : string) :
  chars (mapChars g s) = map g (chars s).
Proof. induction s as [|c rest IH]; cbn; [reflexivity | now rewrite IH]. Qed.

Lemma length_mapChars (g : ascii -> ascii) (s : string) :
  String.length (mapChars g s) = String.length s.
Proof. induction s as [|c rest IH]; cbn; [reflexivity | now rewrite IH]. Qed.

(** X3: for the 18 random bytes the code asks for, [generateId] returns
    an identifier of 24 characters, all of them letters or digits: no
    '-', '_' or '=' of the base64 text survives. *)
Theorem generateId_shape (b : list Byte.byte) :
  length b = 18%nat ->
  exists id,
    generateId (inr b) = inr id
    /\ String.length id = 24%nat
    /\ Forall (fun c => alnum c = true) (chars id).
Proof.
  intros H18. eexists. split; [reflexivity|].
  rewrite ReplaceAll_thrice.
  destruct (EncodeToString_shape b) as [Hlen Hchars].
  rewrite length_mapChars, chars_mapChars. split.
  - rewrite Hlen, H18. reflexivity.
  - apply Forall_map. exact Hchars.
Qed.

Lemma generateId_shape_witness :
  exists id,
    generateId (inr randomF8) = inr id /\ String.length id = 24%nat.
Proof.
  destruct (generateId_shape randomF8) as (id & H & Hlen & _);
    [reflexivity|].
  exists id. split; [exact H | exact Hlen].
Defined.

(** X4: the replacements merge characters of the alphabet ('-' with 'a',
    '_' with 'b'), so different random bytes can give the same
    identifier. *)
Theorem generateId_not_injective :
  exists b1 b2 : list Byte.byte,
    length b1 = 18%nat /\ length b2 = 18%nat /\ b1 <> b2
    /\ generateId (inr b1) = generateId (inr b2).
Proof.
  exists randomF8, random68.
  repeat split; try reflexivity. discriminate.
Qed.

(** ** GetFile *)

(** X5: [GetFile] only returns a record of the collection that has the
    requested identifier and a non-zero upload time; when no such record
    exists it returns [ErrNoDocuments]. *)
Theorem GetFile_found (w : World) (id : string) (failure : option error)
        (f : File) (err : option error) :
  GetFile w id failure = (f, err) ->
  (err = None ->
   failure = None /\ In f (files w) /\ Id f = id /\ UploadedAt f <> 0)
  /\ (failure = None ->
      (forall g, In g (files w) -> Id g = id -> UploadedAt g = 0) ->
      err = Some ErrNoDocuments).
Proof.
  unfold GetFile. intros H. destruct failure as [e|].
  - inversion H; subst. split; [discriminate|]. discriminate.
  - destruct (find _ (files w)) as [g|] eqn:Hfind.
    + apply find_some in Hfind as [Hin Hg].
      apply andb_prop in Hg as [Hid Hat].
      apply String.eqb_eq in Hid. apply negb_true_iff, Z.eqb_neq in Hat.
      inversion H; subst. split; [auto|].
      intros _ Hzero. specialize (Hzero f Hin eq_refl). contradiction.
    + inversion H; subst. split; [discriminate | auto].
Qed.

Lemma GetFile_found_witness :
  GetFile soleWorld "id1" None = (sampleFile "id1" "h1" "icons" 5 false, None)
  /\ UploadedAt (sampleFile "id1" "h1" "icons" 5 false) <> 0.
Proof.
  destruct (GetFile_found soleWorld "id1" None
              (sampleFile "id1" "h1" "icons" 5 false) None eq_refl)
    as [H _].
  destruct (H eq_refl) as (_ & _ & _ & Hat).
  split; [reflexivity | exact Hat].
Defined.

Lemma find_app_last (P : File -> bool) (l : list File) (f : File) :
  (forall g, In g l -> P g = false) -> P f = true ->
  find P (l ++ [f]) = Some f.
Proof.
  intros Hl Hf. induction l as [|g l IH]; cbn.
  - now rewrite Hf.
  - rewrite (Hl g) by (cbn; auto). apply IH. intros g' Hg'. apply Hl.
    cbn; auto.
Qed.

(** X6: a record that [IngestMultipartFile] returns without error is the
    one [GetFile] finds under its identifier afterwards, provided its
    upload time is not 0. *)
Theorem ingest_then_GetFile cfg w bucket filename uploader env w' f :
  IngestMultipartFile cfg w bucket filename uploader env
  = (w', (Some f, None)) ->
  UploadedAt f <> 0 ->
  GetFile w' (Id f) None = (f, None).
Proof.
  intros Hrun Hat.
  destruct (ingest_ok_inserted _ _ _ _ _ _ _ _ Hrun)
    as (w1 & _ & Hfiles & _ & _ & Hfresh).
  unfold GetFile. rewrite Hfiles, find_app_last; [reflexivity| |].
  - intros g Hg. apply Hfresh in Hg.
    destruct (String.eqb_spec (Id g) (Id f)); [contradiction | reflexivity].
  - rewrite String.eqb_refl. cbn.
    destruct (Z.eqb_spec (UploadedAt f) 0); [contradiction | reflexivity].
Qed.

Lemma ingest_then_GetFile_witness :
  GetFile (fst secondUpload) "id9" None = (bobIcon, None).
Proof.
  apply (ingest_then_GetFile cfg0 (fst firstUpload) "icons" catPng bob
           (sampleEnv "id9" "h1" "image/png" (64, 64) "1" (inr 77)
              LandsEarly 5000)
           (fst secondUpload) bobIcon).
  - reflexivity.
  - discriminate.
Defined.

(** ** The block list *)

(** X7: an upload whose hash is on the block list fails with
    [ErrFileBlocked] whatever the bucket and whatever is stored already;
    nothing is inserted and the object store is not called. *)
Theorem ingest_blocked cfg w bucket filename uploader env id hashHex :
  reachesBlockList env id hashHex ->
  In hashHex (blocked_files w) ->
  snd (IngestMultipartFile cfg w bucket filename uploader env)
  = (None, Some ErrFileBlocked)
  /\ files (fst (IngestMultipartFile cfg w bucket filename uploader env))
     = files w
  /\ s3_calls (fst (IngestMultipartFile cfg w bucket filename uploader env))
     = s3_calls w
  /\ objects (fst (IngestMultipartFile cfg w bucket filename uploader env))
     = objects w.
Proof.
  intros (Hid & Hmk & Hcr & Hcp & Hsha & Hbs) Hin.
  assert (Hb : getBlockStatus w hashHex = true).
  { unfold getBlockStatus. apply existsb_exists. exists hashHex.
    split; [assumption | apply String.eqb_refl]. }
  assert (Hrun : IngestMultipartFile cfg w bucket filename uploader env
                 = (hashed uploader env w, (None, Some ErrFileBlocked))).
  { unfold IngestMultipartFile, prepareFile, hashed, getBlockStatus in *.
    rewrite Hid, Hmk, Hcr, Hcp, Hsha, Hbs.
    unfold bind, result, check, run, ret, fail.
    destruct (negb (Z.land (Flags uploader) FlagUltraHDUploads =? 0));
      [destruct (HasPrefix (env_ultra_mime env) "image/")|];
      cbn [exec files blocked_files]; rewrite Hb; reflexivity. }
  rewrite Hrun. cbn [fst snd].
  rewrite hashed_files, hashed_s3_calls, hashed_objects. auto.
Qed.

Lemma ingest_blocked_witness :
  snd (IngestMultipartFile cfg0 blockedWorld "attachments" catPng alice
         (sampleEnv "id1" "h1" "image/png" (64, 64) "1" (inr 77) LandsEarly
            1000))
  = (None, Some ErrFileBlocked).
Proof.
  apply (ingest_blocked cfg0 blockedWorld "attachments" catPng alice
           (sampleEnv "id1" "h1" "image/png" (64, 64) "1" (inr 77)
              LandsEarly 1000) "id1" "h1").
  - repeat split; reflexivity.
  - cbn. auto.
Defined.

(** ** Identifiers of the collection *)

Lemma keepsIds_bind {A B} (c : M A) (k : A -> M B) :
  keepsIds c -> (forall a, keepsIds (k a)) -> keepsIds (bind c k).
Proof.
  intros Hc Hk w. unfold bind. specialize (Hc w).
  destruct (c w) as [w1 [e|a]]; cbn in *; [exact Hc|].
  now rewrite Hk.
Qed.

Lemma keepsIds_ret {A} (a : A) : keepsIds (ret a).
Proof. intros w. reflexivity. Qed.

Lemma keepsIds_fail {A} (e : error) : keepsIds (@fail A e).
Proof. intros w. reflexivity. Qed.

Lemma keepsIds_check (err : option error) : keepsIds (check err).
Proof. destruct err; intros w; reflexivity. Qed.

Lemma keepsIds_result {A} (r : error + A) : keepsIds (result r).
Proof. destruct r; intros w; reflexivity. Qed.

Lemma keepsIds_run (c : Cmd) : keepsIds (run c).
Proof. intros w. reflexivity. Qed.

Lemma keepsIds_put cfg bucket name source ct outcome :
  keepsIds (modify (putObject cfg bucket name source ct outcome)).
Proof. intros w. reflexivity. Qed.

Lemma keepsIds_get cfg bucket name err :
  keepsIds (s3GetObject cfg bucket name err).
Proof. intros w. unfold s3GetObject. destruct err; reflexivity. Qed.

Ltac keeps_with known :=
  repeat first
    [ known
    | apply keepsIds_ret | apply keepsIds_fail | apply keepsIds_check
    | apply keepsIds_result | apply keepsIds_run | apply keepsIds_put
    | apply keepsIds_get
    | apply keepsIds_bind; [|intros ?]
    | match goal with
      | |- keepsIds (if ?b then _ else _) => destruct b
      end
    | progress cbv beta zeta ].

Ltac keeps := keeps_with fail.

Lemma makeThumbnail_keepsIds cfg f dirExists firstFrame env :
  keepsIds (makeThumbnail cfg f dirExists firstFrame env).
Proof. unfold makeThumbnail. keeps. Qed.

Lemma updateMany_ids hashHex bucket mime fs :
  map Id (updateMany hashHex bucket mime fs) = map Id fs.
Proof.
  unfold updateMany. rewrite map_map. apply map_ext.
  intros g. destruct (sameContent hashHex bucket g); reflexivity.
Qed.

Lemma GenerateThumbnail_ids cfg f dirExists firstFrame env w :
  map Id (files (fst (GenerateThumbnail cfg f dirExists firstFrame env w)))
  = map Id (files w).
Proof.
  unfold GenerateThumbnail.
  pose proof (makeThumbnail_keepsIds cfg f dirExists firstFrame env w) as H.
  destruct (makeThumbnail cfg f dirExists firstFrame env w) as [w1 [e|fmt]];
    cbn in *; [exact H|].
  destruct (th_updateMany env); cbn; [exact H|].
  now rewrite updateMany_ids.
Qed.

Lemma GenerateThumbnail_stamp cfg f dirExists firstFrame env w :
  stamp (fst (snd (GenerateThumbnail cfg f dirExists firstFrame env w)))
  = stamp f.
Proof.
  unfold GenerateThumbnail.
  destruct (makeThumbnail cfg f dirExists firstFrame env w) as [w1 [e|fmt]];
    [reflexivity|].
  destruct (th_updateMany env); reflexivity.
Qed.

(** The join of the upload with the thumbnail goroutine. *)
Lemma joinThumbnail_keepsIds cfg env f firstFrame :
  keepsIds (fun w =>
    let '(w1, (f1, terr)) :=
      GenerateThumbnail cfg f true firstFrame (env_thumb env) w in
    match lands env LandsLast terr with
    | Some e => (w1, inl e)
    | None => (w1, inr (set_Size (size_of (env_upload env)) f1))
    end).
Proof.
  intros w.
  pose proof (GenerateThumbnail_ids cfg f true firstFrame (env_thumb env) w)
    as H.
  destruct (GenerateThumbnail _ _ _ _ _ w) as [w1 [f1 terr]].
  destruct (lands env LandsLast terr); exact H.
Qed.

Lemma ingestNew_keepsIds cfg env bucket filename uploader id hashHex :
  keepsIds (ingestNew cfg env bucket filename uploader id hashHex).
Proof.
  unfold ingestNew, ingestSquare, ingestAttachmentImage,
    ingestAttachmentVideo, ingestAttachmentOther.
  keeps; apply joinThumbnail_keepsIds.
Qed.

Lemma prepareFile_keepsIds cfg env bucket filename uploader :
  keepsIds (prepareFile cfg env bucket filename uploader).
Proof.
  unfold prepareFile.
  keeps_with ltac:(apply ingestNew_keepsIds);
    intros w; cbn;
    repeat match goal with
           | |- context [if ?b then _ else _] => destruct b
           end; reflexivity.
Qed.

Lemma ingestSquare_stamp cfg env bucket hashHex f w w' f' :
  ingestSquare cfg env bucket hashHex f w = (w', inr f') -> stamp f' = stamp f.
Proof.
  unfold ingestSquare. intros H.
  destruct (HasPrefix (Mime f) "image/"); cbn [negb] in H; [|discriminate].
  destruct (env_frames env) as [e|frames]; steps_in H; [discriminate|].
  destruct (env_convert env) as [e|]; steps_in H; [discriminate|].
  inversion H; subst. reflexivity.
Qed.

Lemma ingestAttachmentImage_stamp cfg env bucket hashHex f w w' f' :
  ingestAttachmentImage cfg env bucket hashHex f w = (w', inr f') ->
  stamp f' = stamp f.
Proof.
  unfold ingestAttachmentImage. intros H.
  destruct (env_convert env) as [e|]; steps_in H; [discriminate|].
  match type of H with
  | context [GenerateThumbnail ?c ?g ?d ?ff ?e ?w0] =>
      pose proof (GenerateThumbnail_stamp c g d ff e w0) as Hs;
      destruct (GenerateThumbnail c g d ff e w0) as [w1 [f1 terr]]
  end.
  destruct (lands env LandsLast terr); inversion H; subst. exact Hs.
Qed.

Lemma ingestAttachmentVideo_stamp cfg env bucket hashHex f w w' f' :
  ingestAttachmentVideo cfg env bucket hashHex f w = (w', inr f') ->
  stamp f' = stamp f.
Proof.
  unfold ingestAttachmentVideo. intros H. steps_in H.
  destruct (lands env LandsBeforeFfmpegCheck _); [discriminate|].
  destruct (lands env LandsBeforeIdentifyCheck _); [discriminate|].
  match type of H with
  | context [GenerateThumbnail ?c ?g ?d ?ff ?e ?w0] =>
      pose proof (GenerateThumbnail_stamp c g d ff e w0) as Hs;
      destruct (GenerateThumbnail c g d ff e w0) as [w1 [f1 terr]]
  end.
  destruct (lands env LandsLast terr); inversion H; subst. exact Hs.
Qed.

Lemma ingestAttachmentOther_stamp cfg env bucket hashHex f w w' f' :
  ingestAttachmentOther cfg env bucket hashHex f w = (w', inr f') ->
  stamp f' = stamp f.
Proof.
  unfold ingestAttachmentOther. intros H. steps_in H.
  destruct (err_of (env_upload env)); inversion H; subst. reflexivity.
Qed.

Lemma ingestNew_stamp cfg env bucket filename uploader id hashHex w w' f :
  ingestNew cfg env bucket filename uploader id hashHex w = (w', inr f) ->
  stamp f = (id, hashHex, bucket, cleanFilename filename, primaryRegion cfg,
             Username uploader, env_now env, false).
Proof.
  unfold ingestNew. intros H.
  destruct (env_mime env) as [e|mime]; steps_in H; [discriminate|].
  set (f0 := set_Mime mime _) in H.
  assert (exists f1 w1,
            stamp f1 = stamp f0
            /\ (if isImageBucket bucket
                then ingestSquare cfg env bucket hashHex f1
                else if String.eqb bucket "attachments"
                     then if HasPrefix (Mime f1) "image"
                          then ingestAttachmentImage cfg env bucket hashHex f1
                          else if HasPrefix (Mime f1) "video"
                               then ingestAttachmentVideo cfg env bucket
                                      hashHex f1
                               else ingestAttachmentOther cfg env bucket
                                      hashHex f1
                     else ret f1) w1 = (w', inr f))
    as (f1 & w1 & Hs1 & Hrun).
  { destruct (HasPrefix (Mime f0) "image/").
    - destruct (env_identify env) as [e|dims]; steps_in H; [discriminate|].
      eexists _, _. split; [|exact H]. reflexivity.
    - steps_in H. eexists _, _. split; [|exact H]. reflexivity. }
  clear H. change (stamp f = stamp f0). rewrite <- Hs1.
  destruct (isImageBucket bucket);
    [now apply ingestSquare_stamp in Hrun|].
  destruct (String.eqb bucket "attachments");
    [|inversion Hrun; reflexivity].
  destruct (HasPrefix (Mime f1) "image");
    [now apply ingestAttachmentImage_stamp in Hrun|].
  destruct (HasPrefix (Mime f1) "video");
    [now apply ingestAttachmentVideo_stamp in Hrun|].
  now apply ingestAttachmentOther_stamp in Hrun.
Qed.

(** X8: whatever the bucket, the branch and the outcome of every external
    call, [IngestMultipartFile] inserts at most one record: when it
    returns a record and no error the collection has gained exactly that
    record's identifier, at the end; in every other case the identifiers
    of the collection are what they were.  Unique identifiers stay
    unique. *)
Theorem ingest_ids cfg w bucket filename uploader env :
  map Id (files (fst (IngestMultipartFile cfg w bucket filename uploader env)))
  = match snd (IngestMultipartFile cfg w bucket filename uploader env) with
    | (Some f, None) => (map Id (files w) ++ [Id f])%list
    | _ => map Id (files w)
    end
  /\ (uniqueIds w ->
      uniqueIds (fst (IngestMultipartFile cfg w bucket filename uploader
                        env))).
Proof.
  unfold IngestMultipartFile, uniqueIds.
  pose proof (prepareFile_keepsIds cfg env bucket filename uploader w) as Hk.
  destruct (prepareFile cfg env bucket filename uploader w) as [w1 [e|f]];
    cbn [fst snd] in *.
  - rewrite Hk. auto.
  - destruct (env_insertOne env); cbn [fst snd];
      [rewrite Hk; auto|].
    unfold insertOne.
    destruct (existsb _ (files w1)) eqn:Hex; cbn [fst snd files with_files];
      [rewrite Hk; auto|].
    rewrite map_app, Hk. split; [reflexivity|].
    intros Hnd. apply NoDup_app. split; [exact Hnd|]. split.
    + intros x Hx Hx'. apply list_elem_of_In in Hx, Hx'.
      cbn in Hx'. destruct Hx' as [<-|[]].
      rewrite <- Hk in Hx. apply in_map_iff in Hx as (g & Hg & Hin).
      assert (existsb (fun g => String.eqb (Id g) (Id f)) (files w1) = true).
      { apply existsb_exists. exists g. split; [assumption|].
        now apply String.eqb_eq. }
      congruence.
    + apply NoDup_singleton.
Qed.

Lemma ingest_ids_witness :
  uniqueIds (fst secondUpload)
  /\ map Id (files (fst secondUpload)) = ["id1"; "id9"].
Proof.
  destruct (ingest_ids cfg0 (fst firstUpload) "icons" catPng bob
              (sampleEnv "id9" "h1" "image/png" (64, 64) "1" (inr 77)
                 LandsEarly 5000)) as [Hids Huniq].
  split.
  - apply Huniq. apply (bool_decide_unpack _). vm_compute. reflexivity.
  - exact Hids.
Defined.

(** X9: the non-derived fields of a record created for new content are
    fixed by the request in every branch: the generated identifier, the
    hash, the bucket, the cleaned file name, the primary region, the
    uploader's name, the time of the upload, and an unset claimed flag. *)
Theorem ingest_new_stamp cfg w bucket filename uploader env id hashHex w' f :
  newContent w env bucket id hashHex ->
  IngestMultipartFile cfg w bucket filename uploader env
  = (w', (Some f, None)) ->
  Id f = id /\ Hash f = hashHex /\ Bucket f = bucket
  /\ Filename f = cleanFilename filename
  /\ UploadRegion f = primaryRegion cfg
  /\ UploadedBy f = Username uploader
  /\ UploadedAt f = env_now env /\ Claimed f = false.
Proof.
  intros Hnew Hrun.
  destruct (ingest_ok_inserted _ _ _ _ _ _ _ _ Hrun) as (w1 & Hprep & _).
  rewrite (prepareFile_new _ _ _ _ _ _ _ _ Hnew) in Hprep.
  apply ingestNew_stamp in Hprep. unfold stamp in Hprep.
  inversion Hprep. repeat split; reflexivity.
Qed.

Lemma ingest_new_stamp_witness :
  Filename aliceIcon = "cat.png" /\ UploadedAt aliceIcon = 1000
  /\ Claimed aliceIcon = false.
Proof.
  destruct (ingest_new_stamp cfg0 emptyWorld "icons" catPng alice
              (sampleEnv "id1" "h1" "image/png" (64, 64) "1" (inr 77)
                 LandsEarly 1000)
              "id1" "h1" (fst firstUpload) aliceIcon)
    as (_ & _ & _ & Hfn & _ & _ & Hat & Hcl).
  - repeat split; reflexivity.
  - reflexivity.
  - split; [exact Hfn|]. split; [exact Hat | exact Hcl].
Defined.



(** ** Deleting and sweeping *)

Lemma deleteEach_NoDup cfg env targets :
  forall w, NoDup (map Id (files w)) ->
    NoDup (map Id (files (fst (deleteEach cfg w targets env)))).
Proof.
  induction targets as [|t ts IH]; intros w Hnd; cbn; [assumption|].
  destruct (Delete cfg w t (env (Id t))) as [w1 [e|]] eqn:HD;
    destruct (Delete_files _ _ _ _ _ _ HD) as [E|E]; cbn;
    try apply IH; rewrite E; auto using deleteOne_NoDup.
Qed.

(** X11: the [_id] index stays unique under every operation that touches
    the collection after ingestion: [Delete], the sweep, thumbnail
    generation and [GetObject], whatever their external calls do. *)
Theorem uniqueIds_kept cfg w :
  uniqueIds w ->
  (forall f env, uniqueIds (fst (Delete cfg w f env)))
  /\ (forall env, uniqueIds (fst (cleanupFiles cfg w env)))
  /\ (forall f dirExists firstFrame env,
        uniqueIds (fst (GenerateThumbnail cfg f dirExists firstFrame env w)))
  /\ (forall f thumbnail env,
        uniqueIds (fst (GetObject cfg f thumbnail env w))).
Proof.
  unfold uniqueIds. intros Hnd. repeat split.
  - intros f env. destruct (Delete cfg w f env) as [w' r] eqn:HD.
    destruct (Delete_files _ _ _ _ _ _ HD) as [E|E]; cbn; rewrite E;
      auto using deleteOne_NoDup.
  - intros env. unfold cleanupFiles.
    destruct (gc_find env); [assumption|].
    destruct (gc_all env); [assumption|].
    now apply deleteEach_NoDup.
  - intros f dirExists firstFrame env. now rewrite GenerateThumbnail_ids.
  - intros f thumbnail env. unfold GetObject.
    destruct (wantsThumbnail f thumbnail).
    + destruct (String.eqb (ThumbnailMime f) "").
      * pose proof (GenerateThumbnail_ids cfg f false false (get_thumb env) w)
          as Hk.
        destruct (GenerateThumbnail _ _ _ _ _ w) as [w1 [f1 [e|]]];
          cbn in *; [now rewrite Hk|].
        unfold s3GetObject. destruct (get_object env); cbn; now rewrite Hk.
      * unfold s3GetObject. destruct (get_object env); assumption.
    + unfold s3GetObject. destruct (get_object env); assumption.
Qed.

Lemma uniqueIds_kept_witness :
  uniqueIds (fst (cleanupFiles cfg0 gcWorld (okCleanup 10000))).
Proof.
  destruct (uniqueIds_kept cfg0 gcWorld) as (_ & Hgc & _).
  - apply (bool_decide_unpack _). vm_compute. reflexivity.
  - apply Hgc.
Defined.

(** X12: [Delete] takes at most the record with the given identifier out
    of the collection, also when it fails half-way: every other record
    stays, and when no record has that identifier the collection is left
    as it was. *)
Theorem Delete_only_that_id cfg w f env :
  (forall g, In g (files w) -> Id g <> Id f ->
             In g (files (fst (Delete cfg w f env))))
  /\ (forall g, In g (files (fst (Delete cfg w f env))) -> In g (files w))
  /\ ((forall g, In g (files w) -> Id g <> Id f) ->
      files (fst (Delete cfg w f env)) = files w).
Proof.
  destruct (Delete cfg w f env) as [w' r] eqn:HD. cbn [fst].
  assert (Hmiss : forall fs, (forall g, In g fs -> Id g <> Id f) ->
            deleteOne (Id f) fs = fs).
  { induction fs as [|g fs IH]; intros H; cbn; [reflexivity|].
    destruct (String.eqb_spec (Id g) (Id f)) as [E|_].
    - exfalso. apply (H g); cbn; auto.
    - f_equal. apply IH. intros g' Hg'. apply H. cbn; auto. }
  destruct (Delete_files _ _ _ _ _ _ HD) as [E|E]; rewrite E.
  - repeat split; auto.
  - split; [|split].
    + intros g Hg Hne. now apply deleteOne_other.
    + intros g. apply deleteOne_incl.
    + apply Hmiss.
Qed.

Lemma Delete_only_that_id_witness :
  files (fst (Delete cfg0 sharedWorld (sampleFile "id7" "h1" "icons" 5 false)
                okDelete))
  = files sharedWorld.
Proof.
  apply (proj2 (proj2 (Delete_only_that_id cfg0 sharedWorld
                         (sampleFile "id7" "h1" "icons" 5 false) okDelete))).
  intros g [<-|[<-|[]]]; discriminate.
Defined.

Lemma length_thumbnailName (hashHex : string) :
  String.length (thumbnailName hashHex) = (String.length hashHex + 10)%nat.
Proof.
  unfold thumbnailName. induction hashHex as [|c s IH]; [reflexivity|].
  change (S (String.length (s ++ "_thumbnail")%string)
          = S (String.length s + 10)%nat).
  f_equal. exact IH.
Qed.

Lemma thumbnailName_inj (a b : string) :
  thumbnailName a = thumbnailName b -> a = b.
Proof.
  revert b. induction a as [|c a IH]; intros [|d b] H.
  - reflexivity.
  - apply (f_equal String.length) in H.
    rewrite !length_thumbnailName in H.
    change (String.length (String d b)) with (S (String.length b)) in H.
    change (String.length "") with 0%nat in H. lia.
  - apply (f_equal String.length) in H.
    rewrite !length_thumbnailName in H.
    change (String.length (String c a)) with (S (String.length a)) in H.
    change (String.length "") with 0%nat in H. lia.
  - unfold thumbnailName in *. cbn in H. injection H as -> H.
    f_equal. now apply IH.
Qed.

(** Removals leave every other key of the object store alone. *)
Lemma removeAll_untouched f env regions w (key : string * string * string) :
  (forall r, key <> (r, Bucket f, Hash f)) ->
  (forall r, key <> (r, Bucket f, thumbnailName (Hash f))) ->
  objects (fold_left (removeFromRegion f env) regions w) !! key
  = objects w !! key.
Proof.
  intros H1 H2. revert w.
  induction regions as [|r rs IH]; intros w; cbn; [reflexivity|].
  rewrite IH. unfold removeFromRegion, removeObject. cbn.
  repeat match goal with
         | |- context [if ?b then _ else _] => destruct b
         end;
    rewrite ?lookup_delete_ne; auto;
    intros E; symmetry in E; revert E; auto.
Qed.

(** The keys of a record that differs from [f] in hash or bucket are not
    the keys of [f], for hashes of one length. *)
Lemma keys_apart f g :
  sameContent (Hash f) (Bucket f) g = false ->
  String.length (Hash g) = String.length (Hash f) ->
  forall region name : string,
    name = Hash g \/ name = thumbnailName (Hash g) ->
    (forall r : string, (region, Bucket g, name) <> (r, Bucket f, Hash f))
    /\ (forall r : string, (region, Bucket g, name)
                           <> (r, Bucket f, thumbnailName (Hash f))).
Proof.
  intros Hdiff Hlen region name Hname.
  assert (Hne : ~ (Hash g = Hash f /\ Bucket g = Bucket f)).
  { intros [Eh Eb]. unfold sameContent in Hdiff.
    now rewrite Eh, Eb, !String.eqb_refl in Hdiff. }
  split; intros r E; injection E as _ Eb En; subst name;
    destruct Hname as [En|En].
  - apply Hne. split; congruence.
  - apply (f_equal String.length) in En.
    rewrite length_thumbnailName in En. lia.
  - apply (f_equal String.length) in En.
    rewrite length_thumbnailName in En. lia.
  - apply thumbnailName_inj in En. apply Hne. split; congruence.
Qed.

Lemma Delete_objects_of cfg w f env g region name :
  In g (files (fst (Delete cfg w f env))) ->
  String.length (Hash g) = String.length (Hash f) ->
  name = Hash g \/ name = thumbnailName (Hash g) ->
  objects (fst (Delete cfg w f env)) !! (region, Bucket g, name)
  = objects w !! (region, Bucket g, name).
Proof.
  unfold Delete. intros Hin Hlen Hname.
  destruct (del_deleteOne env); [reflexivity|].
  destruct (del_count env); [reflexivity|].
  destruct (isFileReferenced _ _ _) eqn:Href; [reflexivity|].
  cbn [fst] in *. rewrite removeAll_files in Hin. cbn [files with_files] in Hin.
  assert (Hdiff : sameContent (Hash f) (Bucket f) g = false).
  { unfold isFileReferenced in Href. cbn [files with_files] in Href.
    destruct (sameContent (Hash f) (Bucket f) g) eqn:Hs; [|reflexivity].
    assert (existsb (sameContent (Hash f) (Bucket f))
                    (deleteOne (Id f) (files w)) = true)
      by (apply existsb_exists; eauto).
    congruence. }
  destruct (keys_apart f g Hdiff Hlen region name Hname) as [K1 K2].
  rewrite removeAll_untouched by assumption. reflexivity.
Qed.

(** X13: [Delete] never removes an object that a remaining record points
    to: for every record still in the collection afterwards, its
    canonical object and its thumbnail are in every region exactly as
    before (hashes being of one length, as SHA-256 digests are). *)
Theorem Delete_keeps_live_objects cfg w f env g region :
  In g (files (fst (Delete cfg w f env))) ->
  String.length (Hash g) = String.length (Hash f) ->
  objects (fst (Delete cfg w f env)) !! (region, Bucket g, Hash g)
  = objects w !! (region, Bucket g, Hash g)
  /\ objects (fst (Delete cfg w f env))
       !! (region, Bucket g, thumbnailName (Hash g))
     = objects w !! (region, Bucket g, thumbnailName (Hash g)).
Proof.
  intros Hin Hlen. split; apply Delete_objects_of; auto.
Qed.

Lemma Delete_keeps_live_objects_witness :
  objects (fst (Delete cfg0 sharedWorld
                  (sampleFile "id1" "h1" "icons" 5 false) okDelete))
    !! ("eu", "icons", "h1")
  = Some sampleObject.
Proof.
  destruct (Delete_keeps_live_objects cfg0 sharedWorld
              (sampleFile "id1" "h1" "icons" 5 false) okDelete
              (sampleFile "id2" "h1" "icons" 7 true) "eu") as [H _].
  - cbn. auto.
  - reflexivity.
  - cbn [Bucket Hash sampleFile] in H. rewrite H. reflexivity.
Defined.

Lemma deleteEach_objects_of cfg env targets :
  forall w g region name,
    In g (files (fst (deleteEach cfg w targets env))) ->
    (forall t, In t targets ->
               String.length (Hash g) = String.length (Hash t)) ->
    name = Hash g \/ name = thumbnailName (Hash g) ->
    objects (fst (deleteEach cfg w targets env)) !! (region, Bucket g, name)
    = objects w !! (region, Bucket g, name).
Proof.
  induction targets as [|t ts IH]; intros w g region name Hin Hlen Hname;
    cbn in *; [reflexivity|].
  pose proof (Delete_objects_of cfg w t (env (Id t)) g region name) as HD.
  destruct (Delete cfg w t (env (Id t))) as [w1 [e|]] eqn:Hdel;
    cbn [fst] in *.
  - apply HD; auto.
  - rewrite IH by auto. apply HD; auto.
    destruct (deleteEach cfg w1 ts env) as [w2 r] eqn:Hrest.
    destruct (deleteEach_files _ _ _ _ _ _ Hrest) as (Hsub & _).
    apply Hsub. exact Hin.
Qed.

(** X14: a sweep never removes an object that a surviving record points
    to: after [cleanupFiles], with or without error, the canonical object
    and the thumbnail of every record left in the collection are in every
    region exactly as before (hashes being of one length). *)
Theorem cleanupFiles_keeps_live_objects cfg w env g region :
  (forall a b, In a (files w) -> In b (files w) ->
               String.length (Hash a) = String.length (Hash b)) ->
  In g (files (fst (cleanupFiles cfg w env))) ->
  objects (fst (cleanupFiles cfg w env)) !! (region, Bucket g, Hash g)
  = objects w !! (region, Bucket g, Hash g)
  /\ objects (fst (cleanupFiles cfg w env))
       !! (region, Bucket g, thumbnailName (Hash g))
     = objects w !! (region, Bucket g, thumbnailName (Hash g)).
Proof.
  unfold cleanupFiles. intros Hlen Hin.
  destruct (gc_find env); [auto|]. destruct (gc_all env); [auto|].
  assert (Hg : In g (files w)).
  { destruct (deleteEach cfg w _ (gc_delete env)) as [w' r] eqn:Hrun.
    destruct (deleteEach_files _ _ _ _ _ _ Hrun) as (Hsub & _). auto. }
  split; apply deleteEach_objects_of; auto;
    intros t Ht; apply filter_In in Ht as [Ht _]; auto.
Qed.

Lemma cleanupFiles_keeps_live_objects_witness :
  objects (fst (cleanupFiles cfg0
                  (mkWorld [sampleFile "id1" "h1" "icons" 5 false;
                            sampleFile "id2" "h1" "icons" 5 true]
                           [] twoRegionObjects [] [])
                  (okCleanup 10000)))
    !! ("local", "icons", "h1")
  = Some sampleObject.
Proof.
  destruct (cleanupFiles_keeps_live_objects cfg0
              (mkWorld [sampleFile "id1" "h1" "icons" 5 false;
                        sampleFile "id2" "h1" "icons" 5 true]
                       [] twoRegionObjects [] [])
              (okCleanup 10000)
              (sampleFile "id2" "h1" "icons" 5 true) "local") as [H _].
  - intros a b [<-|[<-|[]]] [<-|[<-|[]]]; reflexivity.
  - vm_compute. tauto.
  - cbn [Bucket Hash sampleFile] in H. rewrite H. reflexivity.
Defined.

Lemma filter_complement {A} (p : A -> bool) (l : list A) :
  List.filter p (List.filter (fun x => negb (p x)) l) = [].
Proof.
  rewrite filter_twice. induction l as [|x l IH]; cbn; [reflexivity|].
  destruct (p x); cbn; exact IH.
Qed.

Lemma sweep_ok_files cfg w env w' :
  uniqueIds w ->
  cleanupFiles cfg w env = (w', None) ->
  files w'
  = List.filter (fun f => negb (expired (gc_now env) f)) (files w).
Proof.
  unfold cleanupFiles, uniqueIds. intros Huniq H.
  destruct (gc_find env); [discriminate|].
  destruct (gc_all env); [discriminate|].
  destruct (deleteEach_files _ _ _ _ _ _ H) as (_ & _ & I3).
  rewrite (I3 eq_refl), (deleteIds_filter _ _ Huniq).
  apply filter_ext_in. intros g Hg.
  now rewrite (targeted_filter _ _ _ Huniq Hg).
Qed.

(** X15: the sweep is idempotent: after a sweep that returned no error, a
    second sweep at the same clock reading finds nothing to delete and
    leaves the whole world (collection, object store, call log) as it
    is, whatever its own external calls do. *)
Theorem cleanupFiles_idempotent cfg w env w' env2 :
  uniqueIds w ->
  cleanupFiles cfg w env = (w', None) ->
  gc_now env2 = gc_now env ->
  fst (cleanupFiles cfg w' env2) = w'.
Proof.
  intros Huniq Hrun Hnow.
  pose proof (sweep_ok_files _ _ _ _ Huniq Hrun) as Hfiles.
  unfold cleanupFiles.
  destruct (gc_find env2); [reflexivity|].
  destruct (gc_all env2); [reflexivity|].
  rewrite Hnow, Hfiles, filter_complement. reflexivity.
Qed.

Lemma cleanupFiles_idempotent_witness :
  fst (cleanupFiles cfg0 (fst (cleanupFiles cfg0 gcWorld (okCleanup 10000)))
         (okCleanup 10000))
  = fst (cleanupFiles cfg0 gcWorld (okCleanup 10000)).
Proof.
  apply (cleanupFiles_idempotent cfg0 gcWorld (okCleanup 10000)
           (fst (cleanupFiles cfg0 gcWorld (okCleanup 10000)))
           (okCleanup 10000)).
  - apply (bool_decide_unpack _). vm_compute. reflexivity.
  - reflexivity.
  - reflexivity.
Defined.

(** ** Thumbnails *)

Lemma makeThumbnail_ok cfg f dirExists firstFrame env w w1 format :
  makeThumbnail cfg f dirExists firstFrame env w = (w1, inr format) ->
  (format = "webp" \/ format = "gif")
  /\ files w1 = files w
  /\ objects w1 !! (primaryRegion cfg, Bucket f, thumbnailName (Hash f))
     = Some (mkObject ("thumbnail." ++ format) ("image/" ++ format))%string.
Proof.
  unfold makeThumbnail, s3GetObject. intros H.
  destruct env as [mk go cr cp fr ff rs pt um]. cbn in H.
  destruct dirExists, (HasPrefix (Mime f) "image/"),
    (HasPrefix (Mime f) "video/"), firstFrame, mk, go, cr, cp, fr, ff, rs, pt;
    run_steps; inversion H; subst; clear H;
    (split; [|split; [reflexivity | apply lookup_insert_eq]]);
    unfold chooseFormat; try destruct (String.eqb _ "1"); auto.
Qed.

Lemma updateMany_spec hashHex bucket mime fs g :
  In g (updateMany hashHex bucket mime fs) ->
  (sameContent hashHex bucket g = true -> ThumbnailMime g = mime)
  /\ (sameContent hashHex bucket g = false -> In g fs).
Proof.
  unfold updateMany. intros Hin.
  apply in_map_iff in Hin as (g0 & Hg & Hin).
  destruct (sameContent hashHex bucket g0) eqn:Hs; subst g.
  - split; [reflexivity|]. intros Hf.
    unfold sameContent in *. cbn in Hf. congruence.
  - split; [congruence | auto].
Qed.

(** X16: a thumbnail generation that succeeds stores the thumbnail in the
    primary region under the hash with the "_thumbnail" suffix, as
    image/webp or image/gif, and writes that MIME type on every record of
    the same (hash, bucket); the other records are left as they are. *)
Theorem GenerateThumbnail_propagates cfg f dirExists firstFrame env w w' f' :
  GenerateThumbnail cfg f dirExists firstFrame env w = (w', (f', None)) ->
  (ThumbnailMime f' = "image/webp" \/ ThumbnailMime f' = "image/gif")
  /\ (exists source,
        objects w' !! (primaryRegion cfg, Bucket f, thumbnailName (Hash f))
        = Some (mkObject source (ThumbnailMime f')))
  /\ length (files w') = length (files w)
  /\ (forall g, In g (files w') ->
        sameContent (Hash f) (Bucket f) g = true ->
        ThumbnailMime g = ThumbnailMime f')
  /\ (forall g, In g (files w') ->
        sameContent (Hash f) (Bucket f) g = false -> In g (files w))
  /\ (forall g, In g (files w) ->
        sameContent (Hash f) (Bucket f) g = false -> In g (files w')).
Proof.
  unfold GenerateThumbnail. intros H.
  destruct (makeThumbnail cfg f dirExists firstFrame env w)
    as [w1 [e|format]] eqn:Hmk; [discriminate|].
  destruct (makeThumbnail_ok _ _ _ _ _ _ _ _ Hmk) as (Hfmt & Hfiles & Hobj).
  destruct (th_updateMany env); [discriminate|].
  inversion H; subst; clear H.
  cbn [ThumbnailMime set_ThumbnailMime Hash Bucket files objects with_files].
  rewrite Hfiles. split; [destruct Hfmt as [-> | ->]; auto|].
  split; [eauto|]. split; [unfold updateMany; apply length_map|].
  split; [|split].
  - intros g Hg. now apply updateMany_spec in Hg.
  - intros g Hg. now apply updateMany_spec in Hg.
  - intros g Hg Hs. unfold updateMany. apply in_map_iff. exists g.
    now rewrite Hs.
Qed.

Lemma GenerateThumbnail_propagates_witness :
  length (files (fst (GenerateThumbnail cfg0
                        (sampleFile "id1" "h1" "icons" 5 false) false false
                        okThumb sharedWorld)))
  = 2%nat
  /\ objects (fst (GenerateThumbnail cfg0
                     (sampleFile "id1" "h1" "icons" 5 false) false false
                     okThumb sharedWorld))
       !! ("local", "icons", "h1_thumbnail")
     = Some (mkObject "thumbnail.webp" "image/webp").
Proof.
  destruct (GenerateThumbnail_propagates cfg0
              (sampleFile "id1" "h1" "icons" 5 false) false false okThumb
              sharedWorld
              (fst (GenerateThumbnail cfg0
                      (sampleFile "id1" "h1" "icons" 5 false) false false
                      okThumb sharedWorld))
              (set_ThumbnailMime "image/webp"
                 (sampleFile "id1" "h1" "icons" 5 false)) eq_refl)
    as (_ & _ & Hlen & _).
  split; [rewrite Hlen; reflexivity | reflexivity].
Defined.
